(** * Platformer Adventure: the simulation core of [platformer_game.py]

    A shallow embedding of the game's tick: the player's motion update, the
    patrol rule of platforms and enemies, the collision phase of
    [Game.update], the death procedure, the level tables and the event
    dispatch of the main loop.

    Numbers are modelled as the program has them.  Rectangle coordinates,
    lives and score are Python/C integers and become [Z].  The components of
    a [pygame.math.Vector2] and the physics constants are IEEE 754 binary64
    values and become [spec_float] with the operations of the standard
    library's [SpecFloat] at precision 53 and maximal exponent 1024 (round to
    nearest, ties to even), so that a tick of the model computes the very
    bits a tick of the program computes. *)

From Stdlib Require Import ZArith List Bool Lia.
From Stdlib Require Import SpecFloat.
Import ListNotations.
Local Open Scope Z_scope.

(** ** Binary64 arithmetic *)

Module F64.

Definition float := spec_float.

Definition prec : Z := 53.
Definition emax : Z := 1024.

Definition add : float -> float -> float := SFadd prec emax.
Definition mul : float -> float -> float := SFmul prec emax.
Definition div : float -> float -> float := SFdiv prec emax.
Definition opp : float -> float := SFopp.
Definition abs : float -> float := SFabs.
Definition ltb : float -> float -> bool := SFltb.
Definition leb : float -> float -> bool := SFleb.

Definition zero : float := S754_zero false.

(** The conversion of a Python [int] to a float; exact below 2^53, which
    covers every rectangle coordinate (a C [int]). *)
Definition of_int (z : Z) : float := binary_normalize prec emax z 0 false.

(** The value of a decimal literal [n/d] of the source: the binary64 number
    nearest to it, obtained as the correctly rounded quotient of the two
    (exactly representable) integers. *)
Definition lit (n d : Z) : float := div (of_int n) (of_int d).

(** What the rectangle setters of the graphics backend do with a float
    coordinate: a C cast to [int], that is truncation toward zero.  The
    backend has no defined result for an infinity or a NaN; the model
    returns [0] there. *)
Definition to_int (v : float) : Z :=
  match v with
  | S754_finite s m e =>
      let mag := match e with
                 | Zneg k => Z.shiftr (Zpos m) (Zpos k)
                 | _ => Z.shiftl (Zpos m) e
                 end in
      if s then - mag else mag
  | _ => 0
  end.

Definition is_nan (v : float) : bool :=
  match v with S754_nan => true | _ => false end.

End F64.

(** ** The parts of the graphics backend the core relies on *)

(** [pygame.Rect]: integer position and size. *)
Module Rect.

Record t := mk { x : Z; y : Z; w : Z; h : Z }.

Definition top (r : t) : Z := y r.
Definition bottom (r : t) : Z := y r + h r.
Definition centery (r : t) : Z := y r + Z.shiftr (h r) 1.

Definition set_x (r : t) (v : Z) : t := mk v (y r) (w r) (h r).
Definition set_y (r : t) (v : Z) : t := mk (x r) v (w r) (h r).

(** [rect.center = (cx, cy)] *)
Definition set_center (r : t) (cx cy : Z) : t :=
  mk (cx - Z.shiftr (w r) 1) (cy - Z.shiftr (h r) 1) (w r) (h r).

(** [rect.midbottom = (mx, my)] *)
Definition set_midbottom (r : t) (mx my : Z) : t :=
  mk (mx - Z.shiftr (w r) 1) (my - h r) (w r) (h r).

(** [Rect.colliderect]: rectangles of size zero collide with nothing;
    otherwise the open intervals must meet on both axes. *)
Definition colliderect (a b : t) : bool :=
  if (w a =? 0) || (h a =? 0) || (w b =? 0) || (h b =? 0) then false
  else (Z.min (x a) (x a + w a) <? Z.max (x b) (x b + w b))
    && (Z.min (y a) (y a + h a) <? Z.max (y b) (y b + h b))
    && (Z.max (x a) (x a + w a) >? Z.min (x b) (x b + w b))
    && (Z.max (y a) (y a + h a) >? Z.min (y b) (y b + h b)).

End Rect.

(** [pygame.math.Vector2]: a pair of doubles with componentwise arithmetic. *)
Module Vector2.

Record t := mk { x : F64.float; y : F64.float }.

Definition add (a b : t) : t := mk (F64.add (x a) (x b)) (F64.add (y a) (y b)).
Definition scale (k : F64.float) (a : t) : t := mk (F64.mul k (x a)) (F64.mul k (y a)).

Definition set_x (a : t) (v : F64.float) : t := mk v (y a).
Definition set_y (a : t) (v : F64.float) : t := mk (x a) v.

End Vector2.

(** [pygame.sprite.spritecollide(sprite, group, dokill)]: the sprites of the
    group whose rectangle collides with the given one, in the group's
    (insertion) order, and the group afterwards: with [dokill] every hit
    sprite has been removed from it. *)
Definition spritecollide {A : Type} (rect_of : A -> Rect.t) (r : Rect.t)
    (group : list A) (dokill : bool) : list A * list A :=
  let hit := fun s => Rect.colliderect r (rect_of s) in
  (filter hit group,
   if dokill then filter (fun s => negb (hit s)) group else group).

(** ** Constants (lines 17-43) *)

Definition SCREEN_WIDTH : Z := 800.
Definition SCREEN_HEIGHT : Z := 600.

Definition PLAYER_ACC : F64.float := F64.lit 5 10.
Definition PLAYER_FRICTION : F64.float := F64.opp (F64.lit 12 100).
Definition PLAYER_GRAVITY : F64.float := F64.lit 8 10.
Definition PLAYER_JUMP : F64.float := F64.of_int (-16).

Inductive GameState := MENU | PLAYING | GAME_OVER | WIN.

Definition GameState_eqb (a b : GameState) : bool :=
  match a, b with
  | MENU, MENU | PLAYING, PLAYING | GAME_OVER, GAME_OVER | WIN, WIN => true
  | _, _ => false
  end.

(** ** Sprites *)

Record Player := mkPlayer {
  Player_rect : Rect.t;
  Player_pos : Vector2.t;
  Player_vel : Vector2.t;
  Player_acc : Vector2.t;
  Player_facing_right : bool;
  Player_jumping : bool;
  Player_on_ground : bool;
  Player_lives : Z
}.

Record Platform := mkPlatform {
  Platform_rect : Rect.t;
  Platform_is_moving : bool;
  Platform_move_range : Z;
  Platform_move_speed : Z;
  Platform_start_pos : Z;
  Platform_direction : Z
}.

Record Enemy := mkEnemy {
  Enemy_rect : Rect.t;
  Enemy_patrol_range : Z;
  Enemy_speed : Z;
  Enemy_start_pos : Z;
  Enemy_direction : Z
}.

Record Coin := mkCoin { Coin_rect : Rect.t }.

(** The three sounds the game hands to the audio backend. *)
Inductive Sound := jump_sound | coin_sound | death_sound.

(** The [Game] object once [new_game] has created its sprites.  [all_sprites]
    is not stored: it is the player followed by the platforms, the enemies
    and the coins, and these are the same objects as in the three groups.
    [Game_played] records the calls of [Sound.play], most recent first. *)
Record Game := mkGame {
  Game_running : bool;
  Game_game_state : GameState;
  Game_score : Z;
  Game_level : Z;
  Game_platforms : list Platform;
  Game_enemies : list Enemy;
  Game_coins : list Coin;
  Game_player : Player;
  Game_played : list Sound
}.

(** Field assignments. *)

Definition Player_set_rect (p : Player) (v : Rect.t) : Player :=
  mkPlayer v (Player_pos p) (Player_vel p) (Player_acc p)
    (Player_facing_right p) (Player_jumping p) (Player_on_ground p) (Player_lives p).
Definition Player_set_pos (p : Player) (v : Vector2.t) : Player :=
  mkPlayer (Player_rect p) v (Player_vel p) (Player_acc p)
    (Player_facing_right p) (Player_jumping p) (Player_on_ground p) (Player_lives p).
Definition Player_set_vel (p : Player) (v : Vector2.t) : Player :=
  mkPlayer (Player_rect p) (Player_pos p) v (Player_acc p)
    (Player_facing_right p) (Player_jumping p) (Player_on_ground p) (Player_lives p).
Definition Player_set_acc (p : Player) (v : Vector2.t) : Player :=
  mkPlayer (Player_rect p) (Player_pos p) (Player_vel p) v
    (Player_facing_right p) (Player_jumping p) (Player_on_ground p) (Player_lives p).
Definition Player_set_facing_right (p : Player) (v : bool) : Player :=
  mkPlayer (Player_rect p) (Player_pos p) (Player_vel p) (Player_acc p)
    v (Player_jumping p) (Player_on_ground p) (Player_lives p).
Definition Player_set_jumping (p : Player) (v : bool) : Player :=
  mkPlayer (Player_rect p) (Player_pos p) (Player_vel p) (Player_acc p)
    (Player_facing_right p) v (Player_on_ground p) (Player_lives p).
Definition Player_set_lives (p : Player) (v : Z) : Player :=
  mkPlayer (Player_rect p) (Player_pos p) (Player_vel p) (Player_acc p)
    (Player_facing_right p) (Player_jumping p) (Player_on_ground p) v.

Definition Game_set_running (g : Game) (v : bool) : Game :=
  mkGame v (Game_game_state g) (Game_score g) (Game_level g) (Game_platforms g)
    (Game_enemies g) (Game_coins g) (Game_player g) (Game_played g).
Definition Game_set_game_state (g : Game) (v : GameState) : Game :=
  mkGame (Game_running g) v (Game_score g) (Game_level g) (Game_platforms g)
    (Game_enemies g) (Game_coins g) (Game_player g) (Game_played g).
Definition Game_set_score (g : Game) (v : Z) : Game :=
  mkGame (Game_running g) (Game_game_state g) v (Game_level g) (Game_platforms g)
    (Game_enemies g) (Game_coins g) (Game_player g) (Game_played g).
Definition Game_set_platforms (g : Game) (v : list Platform) : Game :=
  mkGame (Game_running g) (Game_game_state g) (Game_score g) (Game_level g) v
    (Game_enemies g) (Game_coins g) (Game_player g) (Game_played g).
Definition Game_set_enemies (g : Game) (v : list Enemy) : Game :=
  mkGame (Game_running g) (Game_game_state g) (Game_score g) (Game_level g)
    (Game_platforms g) v (Game_coins g) (Game_player g) (Game_played g).
Definition Game_set_coins (g : Game) (v : list Coin) : Game :=
  mkGame (Game_running g) (Game_game_state g) (Game_score g) (Game_level g)
    (Game_platforms g) (Game_enemies g) v (Game_player g) (Game_played g).
Definition Game_set_player (g : Game) (v : Player) : Game :=
  mkGame (Game_running g) (Game_game_state g) (Game_score g) (Game_level g)
    (Game_platforms g) (Game_enemies g) (Game_coins g) v (Game_played g).

(** [sound.play()] *)
Definition play (s : Sound) (g : Game) : Game :=
  mkGame (Game_running g) (Game_game_state g) (Game_score g) (Game_level g)
    (Game_platforms g) (Game_enemies g) (Game_coins g) (Game_player g)
    (s :: Game_played g).

(** ** Input *)

Inductive Key := K_ESCAPE | K_SPACE | K_UP | K_RETURN | K_LEFT | K_RIGHT | K_OTHER.

Inductive Event := QUIT | KEYDOWN (key : Key) | OTHER_EVENT.

(** The snapshot [pygame.key.get_pressed()] of one tick. *)
Definition Pressed := Key -> bool.

(** ** Constructors (lines 62-75, 141-152, 165-175, 187-193) *)

(** [SCREEN_WIDTH / 2] is a true division: its float result is truncated by
    the rectangle setter. *)
Definition Player_init : Player :=
  mkPlayer
    (Rect.set_center (Rect.mk 0 0 30 40)
       (F64.to_int (F64.div (F64.of_int SCREEN_WIDTH) (F64.of_int 2)))
       (F64.to_int (F64.div (F64.of_int SCREEN_HEIGHT) (F64.of_int 2))))
    (Vector2.mk (F64.of_int 100) (F64.of_int (SCREEN_HEIGHT - 200)))
    (Vector2.mk (F64.of_int 0) (F64.of_int 0))
    (Vector2.mk (F64.of_int 0) (F64.of_int 0))
    true false false 3.

Definition Platform_init (x y width height : Z) (is_moving : bool)
    (move_range move_speed : Z) : Platform :=
  mkPlatform (Rect.mk x y width height) is_moving move_range move_speed x 1.

Definition Enemy_init (x y patrol_range speed : Z) : Enemy :=
  mkEnemy (Rect.mk x y 30 30) patrol_range speed x 1.

Definition Coin_init (x y : Z) : Coin := mkCoin (Rect.mk x y 15 15).

(** ** [Game.player_die] (lines 391-401) *)

Definition Game_player_die (g : Game) : Game :=
  let g := play death_sound g in
  let g := Game_set_player g
             (Player_set_lives (Game_player g) (Player_lives (Game_player g) - 1)) in
  if Player_lives (Game_player g) <=? 0 then
    Game_set_game_state g GAME_OVER
  else
    let p := Game_player g in
    let p := Player_set_pos p
               (Vector2.mk (F64.of_int 100) (F64.of_int (SCREEN_HEIGHT - 200))) in
    let p := Player_set_vel p (Vector2.mk (F64.of_int 0) (F64.of_int 0)) in
    Game_set_player g p.

(** ** [Player.jump] (lines 83-93) *)

Definition is_empty {A : Type} (l : list A) : bool :=
  match l with [] => true | _ :: _ => false end.

(** The platforms met by the player's rectangle moved one unit down. *)
Definition ground_probe (g : Game) : list Platform :=
  let r := Player_rect (Game_player g) in
  fst (spritecollide Platform_rect (Rect.set_y r (Rect.y r + 1))
         (Game_platforms g) false).

Definition Player_jump (g : Game) : Game :=
  let p := Game_player g in
  let p := Player_set_rect p
             (Rect.set_y (Player_rect p) (Rect.y (Player_rect p) + 1)) in
  let hits := fst (spritecollide Platform_rect (Player_rect p)
                     (Game_platforms g) false) in
  let p := Player_set_rect p
             (Rect.set_y (Player_rect p) (Rect.y (Player_rect p) - 1)) in
  let g := Game_set_player g p in
  if negb (is_empty hits) && negb (Player_jumping p) then
    let p := Player_set_jumping p true in
    let p := Player_set_vel p (Vector2.set_y (Player_vel p) PLAYER_JUMP) in
    play jump_sound (Game_set_player g p)
  else g.

(** ** [Player.update] (lines 95-128) *)

(** Lines 97-115: acceleration, friction and the equations of motion. *)
Definition Player_update_motion (keys : Pressed) (p : Player) : Player :=
  let p := Player_set_acc p (Vector2.mk (F64.of_int 0) PLAYER_GRAVITY) in
  let p := if keys K_LEFT then
             Player_set_facing_right
               (Player_set_acc p (Vector2.set_x (Player_acc p) (F64.opp PLAYER_ACC)))
               false
           else p in
  let p := if keys K_RIGHT then
             Player_set_facing_right
               (Player_set_acc p (Vector2.set_x (Player_acc p) PLAYER_ACC))
               true
           else p in
  let p := Player_set_acc p
             (Vector2.set_x (Player_acc p)
                (F64.add (Vector2.x (Player_acc p))
                   (F64.mul (Vector2.x (Player_vel p)) PLAYER_FRICTION))) in
  let p := Player_set_vel p (Vector2.add (Player_vel p) (Player_acc p)) in
  let p := if F64.ltb (F64.abs (Vector2.x (Player_vel p))) (F64.lit 1 10) then
             Player_set_vel p (Vector2.set_x (Player_vel p) (F64.of_int 0))
           else p in
  Player_set_pos p
    (Vector2.add (Player_pos p)
       (Vector2.add (Player_vel p) (Vector2.scale (F64.lit 5 10) (Player_acc p)))).

(** Lines 118-121 on the x coordinate. *)
Definition wrap_x (x : F64.float) : F64.float :=
  let x := if F64.ltb (F64.of_int SCREEN_WIDTH) x then F64.of_int 0 else x in
  if F64.ltb x (F64.of_int 0) then F64.of_int SCREEN_WIDTH else x.

Definition Player_update_wrap (p : Player) : Player :=
  Player_set_pos p (Vector2.set_x (Player_pos p) (wrap_x (Vector2.x (Player_pos p)))).

(** The whole method; it works on the game because falling off the screen
    calls [self.game.player_die()]. *)
Definition Player_update (keys : Pressed) (g : Game) : Game :=
  let p := Player_update_motion keys (Game_player g) in
  let p := Player_update_wrap p in
  let p := Player_set_rect p
             (Rect.set_midbottom (Player_rect p)
                (F64.to_int (Vector2.x (Player_pos p)))
                (F64.to_int (Vector2.y (Player_pos p)))) in
  let g := Game_set_player g p in
  if Rect.top (Player_rect p) >? SCREEN_HEIGHT then Game_player_die g else g.

(** ** [Platform.update] and [Enemy.update] (lines 154-159, 177-181) *)

Definition Platform_update (p : Platform) : Platform :=
  if Platform_is_moving p then
    let r := Rect.set_x (Platform_rect p)
               (Rect.x (Platform_rect p) + Platform_move_speed p * Platform_direction p) in
    let d := if Z.abs (Rect.x r - Platform_start_pos p) >? Platform_move_range p
             then Platform_direction p * -1 else Platform_direction p in
    mkPlatform r (Platform_is_moving p) (Platform_move_range p)
      (Platform_move_speed p) (Platform_start_pos p) d
  else p.

Definition Enemy_update (e : Enemy) : Enemy :=
  let r := Rect.set_x (Enemy_rect e)
             (Rect.x (Enemy_rect e) + Enemy_speed e * Enemy_direction e) in
  let d := if Z.abs (Rect.x r - Enemy_start_pos e) >? Enemy_patrol_range e
           then Enemy_direction e * -1 else Enemy_direction e in
  mkEnemy r (Enemy_patrol_range e) (Enemy_speed e) (Enemy_start_pos e) d.

(** ** [Game.update] (lines 358-389) *)

(** Line 360, [self.all_sprites.update()]: the player first (it was added
    first), then every platform and every enemy; a coin has no update. *)
Definition Game_update_sprites (keys : Pressed) (g : Game) : Game :=
  let g := Player_update keys g in
  let g := Game_set_platforms g (map Platform_update (Game_platforms g)) in
  Game_set_enemies g (map Enemy_update (Game_enemies g)).

(** Lines 366-369: start from the first hit and replace it by every later hit
    whose bottom edge is strictly greater. *)
Definition lowest_of (first : Platform) (hits : list Platform) : Platform :=
  fold_left
    (fun lowest hit =>
       if Rect.bottom (Platform_rect hit) >? Rect.bottom (Platform_rect lowest)
       then hit else lowest)
    hits first.

(** The platforms the player's rectangle collides with (line 364). *)
Definition platform_hits (g : Game) : list Platform :=
  fst (spritecollide Platform_rect (Player_rect (Game_player g))
         (Game_platforms g) false).

(** Lines 362-374: landing, only while falling. *)
Definition Game_update_landing (g : Game) : Game :=
  let p := Game_player g in
  if F64.ltb (F64.of_int 0) (Vector2.y (Player_vel p)) then
    match platform_hits g with
    | [] => g
    | (first :: _) as hits =>
        let lowest := lowest_of first hits in
        if F64.ltb (Vector2.y (Player_pos p))
             (F64.of_int (Rect.centery (Platform_rect lowest))) then
          let p := Player_set_pos p
                     (Vector2.set_y (Player_pos p)
                        (F64.of_int (Rect.top (Platform_rect lowest) + 1))) in
          let p := Player_set_vel p (Vector2.set_y (Player_vel p) (F64.of_int 0)) in
          let p := Player_set_jumping p false in
          Game_set_player g p
        else g
    end
  else g.

(** The body of the loop of lines 378-384, run once per collected coin. *)
Definition coin_step (g : Game) (coin : Coin) : Game :=
  let g := Game_set_score g (Game_score g + 10) in
  let g := play coin_sound g in
  if (length (Game_coins g) =? 0)%nat then Game_set_game_state g WIN else g.

(** Lines 376-384: the hit coins leave the group, then each of them scores. *)
Definition Game_update_coins (g : Game) : Game :=
  let '(coin_hits, rest) :=
    spritecollide Coin_rect (Player_rect (Game_player g)) (Game_coins g) true in
  let g := Game_set_coins g rest in
  fold_left coin_step coin_hits g.

(** Lines 386-389. *)
Definition enemy_hits (g : Game) : list Enemy :=
  fst (spritecollide Enemy_rect (Player_rect (Game_player g))
         (Game_enemies g) false).

Definition Game_update_enemies (g : Game) : Game :=
  if negb (is_empty (enemy_hits g)) then Game_player_die g else g.

Definition Game_update (keys : Pressed) (g : Game) : Game :=
  let g := Game_update_sprites keys g in
  let g := Game_update_landing g in
  let g := Game_update_coins g in
  Game_update_enemies g.

(** ** [Game.create_level] and [Game.new_game] (lines 223-323) *)

(** An entry of [platform_list]: a tuple of four numbers, or of seven for a
    moving platform ([len(plat) > 5]). *)
Inductive PlatformSpec :=
| Static (x y width height : Z)
| Moving (x y width height : Z) (is_moving : bool) (move_range move_speed : Z).

Definition platform_list (level : Z) : list PlatformSpec :=
  if level =? 1 then
    [ Static 0 (SCREEN_HEIGHT - 40) SCREEN_WIDTH 40;
      Static 100 400 150 20;
      Static 300 300 100 20;
      Static 500 200 150 20;
      Static 250 120 100 20;
      Moving 650 350 100 20 true 100 1 ]
  else
    [ Static 0 (SCREEN_HEIGHT - 40) SCREEN_WIDTH 40;
      Static 100 450 100 20;
      Static 300 350 100 20;
      Static 500 250 100 20;
      Static 200 150 100 20;
      Static 400 100 100 20;
      Static 600 150 100 20;
      Moving 100 250 100 20 true 150 2 ].

Definition enemy_list (level : Z) : list (Z * Z * Z) :=
  if level =? 1 then
    [ (300, 280, 80); (500, 180, 100) ]
  else
    [ (300, 330, 80); (500, 230, 80); (200, 130, 80); (600, 130, 80) ].

Definition coin_list (level : Z) : list (Z * Z) :=
  if level =? 1 then
    [ (130, 370); (330, 270); (530, 170); (280, 90); (680, 320) ]
  else
    [ (130, 420); (330, 320); (530, 220); (230, 120); (430, 70); (630, 120);
      (130, 220) ].

Definition Platform_of_spec (plat : PlatformSpec) : Platform :=
  match plat with
  | Moving x y width height is_moving move_range move_speed =>
      Platform_init x y width height is_moving move_range move_speed
  | Static x y width height => Platform_init x y width height false 0 0
  end.

(** The groups are extended in the order of the source: the ground, then the
    table of platforms (which lists the ground a second time), the enemies
    with the default speed 1, the coins. *)
Definition Game_create_level (g : Game) (level : Z) : Game :=
  let ground := Platform_init 0 (SCREEN_HEIGHT - 40) SCREEN_WIDTH 40 false 0 0 in
  let g := Game_set_platforms g (Game_platforms g ++ [ground]) in
  let g := Game_set_platforms g
             (Game_platforms g ++ map Platform_of_spec (platform_list level)) in
  let g := Game_set_enemies g
             (Game_enemies g
                ++ map (fun e => match e with (x, y, r) => Enemy_init x y r 1 end)
                     (enemy_list level)) in
  Game_set_coins g
    (Game_coins g
       ++ map (fun c => match c with (x, y) => Coin_init x y end) (coin_list level)).

Definition Game_new_game (g : Game) : Game :=
  let g := Game_set_score g 0 in
  let g := Game_set_game_state g PLAYING in
  let g := Game_set_platforms g [] in
  let g := Game_set_enemies g [] in
  let g := Game_set_coins g [] in
  let g := Game_set_player g Player_init in
  Game_create_level g (Game_level g).

(** ** The main loop (lines 199-207, 325-356) *)

(** [Game()] followed by [game.game_state = MENU].  The sprite attributes do
    not exist before the first [new_game]; the record holds empty groups and
    a fresh player there, which nothing reads in the MENU state and which
    [new_game] replaces. *)
Definition Game_init : Game :=
  mkGame true MENU 0 1 [] [] [] Player_init [].

Definition Game_handle_event (g : Game) (event : Event) : Game :=
  let g := match event with QUIT => Game_set_running g false | _ => g end in
  match event with
  | KEYDOWN key =>
      let g := match key with K_ESCAPE => Game_set_running g false | _ => g end in
      match Game_game_state g with
      | PLAYING =>
          match key with
          | K_SPACE | K_UP => Player_jump g
          | _ => g
          end
      | MENU =>
          match key with
          | K_RETURN => Game_new_game g
          | _ => g
          end
      | GAME_OVER | WIN =>
          match key with
          | K_RETURN => Game_set_game_state g MENU
          | _ => g
          end
      end
  | _ => g
  end.

Definition Game_events (evs : list Event) (g : Game) : Game :=
  fold_left Game_handle_event evs g.

(** One iteration of the loop of [run]: the events of the tick, then the
    update when the game is being played (drawing reads the state only). *)
Definition Game_run_iteration (evs : list Event) (keys : Pressed) (g : Game) : Game :=
  let g := Game_events evs g in
  if GameState_eqb (Game_game_state g) PLAYING then Game_update keys g else g.

(** The states the program can be in at the head of the loop. *)
Inductive reachable : Game -> Prop :=
| reachable_init : reachable Game_init
| reachable_step g evs keys :
    reachable g -> Game_running g = true ->
    reachable (Game_run_iteration evs keys g).

(** Runs of the loop on given inputs, for concrete scenarios. *)
Fixpoint Game_run (inputs : list (list Event * Pressed)) (g : Game) : Game :=
  match inputs with
  | [] => g
  | (evs, keys) :: rest =>
      if Game_running g then Game_run rest (Game_run_iteration evs keys g) else g
  end.

Definition no_keys : Pressed := fun _ => false.

(** * Properties *)

(** ** Rectangles and collisions *)

Lemma set_y_back (r : Rect.t) :
  Rect.set_y (Rect.set_y r (Rect.y r + 1)) (Rect.y (Rect.set_y r (Rect.y r + 1)) - 1) = r.
Proof.
  destruct r as [x y w h]; unfold Rect.set_y; simpl.
  f_equal; lia.
Qed.

Lemma is_empty_nil {A : Type} (l : list A) : is_empty l = true <-> l = [].
Proof. destruct l; simpl; split; intro H; congruence. Qed.

Lemma is_empty_cons {A : Type} (l : list A) : is_empty l = false <-> l <> [].
Proof. destruct l; simpl; split; intro H; congruence. Qed.

(** The probe of [jump] is the list [ground_probe] names. *)
Lemma Player_jump_unfold (g : Game) :
  Player_jump g =
  if negb (is_empty (ground_probe g)) && negb (Player_jumping (Game_player g))
  then
    play jump_sound
      (Game_set_player g
         (Player_set_vel (Player_set_jumping (Game_player g) true)
            (Vector2.set_y (Player_vel (Game_player g)) PLAYER_JUMP)))
  else g.
Proof.
  unfold Player_jump, ground_probe.
  destruct g as [run st sc lv pl en co p snd].
  destruct p as [r pos vel acc fr j og l]; simpl.
  rewrite set_y_back.
  destruct (negb _ && negb j); reflexivity.
Qed.

(** ** The jump contract *)

Lemma jump_noop (g : Game) :
  Player_jumping (Game_player g) = true -> Player_jump g = g.
Proof.
  intros H. rewrite Player_jump_unfold, H, andb_false_r. reflexivity.
Qed.

(** C6. A jump request changes the player exactly when the jumping flag is
    false and the rectangle moved one unit down meets a platform; it then sets
    the flag and gives the vertical velocity the jump impulse (leaving every
    other field as it was), and otherwise leaves the whole game, sounds
    included, unchanged. *)
Theorem jump_contract (g : Game) :
  (Game_player (Player_jump g) <> Game_player g <->
     Player_jumping (Game_player g) = false /\ ground_probe g <> [])
  /\ (Player_jumping (Game_player g) = false -> ground_probe g <> [] ->
        let p := Game_player g in
        Player_jump g =
        play jump_sound
          (Game_set_player g
             (mkPlayer (Player_rect p) (Player_pos p)
                (Vector2.mk (Vector2.x (Player_vel p)) PLAYER_JUMP) (Player_acc p)
                (Player_facing_right p) true (Player_on_ground p) (Player_lives p))))
  /\ (Player_jumping (Game_player g) = true \/ ground_probe g = [] ->
        Player_jump g = g).
Proof.
  rewrite Player_jump_unfold.
  destruct (ground_probe g) as [|h hs] eqn:Hp;
    destruct (Player_jumping (Game_player g)) eqn:Hj; simpl.
  - split; [|split]; try reflexivity; try congruence.
    split; [congruence | intros [? ?]; congruence].
  - split; [|split]; try reflexivity; try congruence.
    split; [congruence | intros [? ?]; congruence].
  - split; [|split]; try reflexivity; try congruence.
    split; [congruence | intros [? ?]; congruence].
  - split; [|split].
    + split; [intros _; split; congruence | intros _ H].
      apply (f_equal Player_jumping) in H; simpl in H. congruence.
    + intros _ _. reflexivity.
    + intros [H | H]; congruence.
Qed.

(** ** The death procedure *)

(** C9. When the decremented lives counter is still above zero the death
    procedure puts the player at (100, SCREEN_HEIGHT - 200) with zero
    velocity and leaves the score, the coins, the enemies, the platforms and
    the game state as they were. *)
Theorem player_die_respawn (g : Game) :
  Player_lives (Game_player g) - 1 > 0 ->
  let g' := Game_player_die g in
  Player_pos (Game_player g') = Vector2.mk (F64.of_int 100) (F64.of_int 400)
  /\ Player_vel (Game_player g') = Vector2.mk (F64.of_int 0) (F64.of_int 0)
  /\ Player_lives (Game_player g') = Player_lives (Game_player g) - 1
  /\ Game_score g' = Game_score g
  /\ Game_coins g' = Game_coins g
  /\ Game_enemies g' = Game_enemies g
  /\ Game_platforms g' = Game_platforms g
  /\ Game_game_state g' = Game_game_state g
  /\ Game_played g' = death_sound :: Game_played g.
Proof.
  intros Hl. unfold Game_player_die; simpl.
  destruct (Player_lives (Game_player g) - 1 <=? 0) eqn:E.
  - apply Z.leb_le in E. lia.
  - simpl. repeat split; reflexivity.
Qed.

Lemma player_die_respawn_witness :
  Player_lives (Game_player (Game_new_game Game_init)) - 1 > 0 /\
  Game_score (Game_player_die (Game_new_game Game_init)) = 0.
Proof.
  split; [vm_compute; reflexivity|].
  apply (player_die_respawn (Game_new_game Game_init)). vm_compute; reflexivity.
Defined.

(** ** Comparisons of binary64 values *)

Lemma SFcompare_antisym (a b : spec_float) :
  SFcompare b a = option_map CompOpp (SFcompare a b).
Proof.
  destruct a as [sa|sa| |sa ma ea], b as [sb|sb| |sb mb eb]; simpl;
    try reflexivity;
    try (destruct sa; reflexivity);
    try (destruct sb; reflexivity);
    try (destruct sa, sb; reflexivity).
  destruct sa, sb; simpl; try reflexivity;
    rewrite (Z.compare_antisym ea eb);
    destruct (ea ?= eb); simpl; try reflexivity;
    pose proof (Pos.compare_cont_antisym ma mb Eq) as H; simpl in H;
    rewrite H; reflexivity.
Qed.

(** For numbers (no NaN), [b < a] failing means [a <= b]. *)
Lemma F64_not_ltb_leb (a b : F64.float) :
  F64.is_nan a = false -> F64.is_nan b = false ->
  F64.ltb b a = false -> F64.leb a b = true.
Proof.
  unfold F64.ltb, F64.leb, SFltb, SFleb. intros Ha Hb.
  rewrite (SFcompare_antisym a b).
  destruct (SFcompare a b) as [[| |]|] eqn:E; simpl; try congruence.
  destruct a, b; simpl in *; try congruence;
    repeat match goal with s : bool |- _ => destruct s end; simpl in E; congruence.
Qed.

(** ** The horizontal wrap *)

Lemma wrap_x_cases (x : F64.float) :
  wrap_x x =
  if F64.ltb (F64.of_int SCREEN_WIDTH) x then F64.of_int 0
  else if F64.ltb x (F64.of_int 0) then F64.of_int SCREEN_WIDTH else x.
Proof.
  unfold wrap_x. destruct (F64.ltb (F64.of_int SCREEN_WIDTH) x); reflexivity.
Qed.

Lemma wrap_x_guards (x : F64.float) :
  F64.ltb (F64.of_int SCREEN_WIDTH) (wrap_x x) = false
  /\ F64.ltb (wrap_x x) (F64.of_int 0) = false.
Proof.
  rewrite wrap_x_cases.
  destruct (F64.ltb (F64.of_int SCREEN_WIDTH) x) eqn:E1.
  - split; reflexivity.
  - destruct (F64.ltb x (F64.of_int 0)) eqn:E2.
    + split; reflexivity.
    + split; assumption.
Qed.

Lemma wrap_x_nan (x : F64.float) :
  F64.is_nan x = false -> F64.is_nan (wrap_x x) = false.
Proof.
  intros H. rewrite wrap_x_cases.
  destruct (F64.ltb (F64.of_int SCREEN_WIDTH) x); [reflexivity|].
  destruct (F64.ltb x (F64.of_int 0)); [reflexivity | assumption].
Qed.

Lemma wrap_x_range (x : F64.float) :
  F64.is_nan x = false ->
  F64.leb (F64.of_int 0) (wrap_x x) = true
  /\ F64.leb (wrap_x x) (F64.of_int SCREEN_WIDTH) = true.
Proof.
  intros H. pose proof (wrap_x_nan x H) as Hn.
  destruct (wrap_x_guards x) as [G1 G2].
  split; apply F64_not_ltb_leb; auto.
Qed.

(** C5, as the code has it. The wrap sends a position strictly beyond
    SCREEN_WIDTH to 0 and a position strictly below 0 to SCREEN_WIDTH, and
    leaves every other position unchanged; so exactly SCREEN_WIDTH and
    exactly 0 are fixed points. Wrapping twice is wrapping once, and the
    wrapped position of a number lies within [0, SCREEN_WIDTH]; this is the
    player's x after the wrap step of [Player.update]. *)
Theorem wrap_strict_idempotent (x : F64.float) :
  (F64.ltb (F64.of_int SCREEN_WIDTH) x = true -> wrap_x x = F64.of_int 0)
  /\ (F64.ltb (F64.of_int SCREEN_WIDTH) x = false ->
      F64.ltb x (F64.of_int 0) = true -> wrap_x x = F64.of_int SCREEN_WIDTH)
  /\ (F64.ltb (F64.of_int SCREEN_WIDTH) x = false ->
      F64.ltb x (F64.of_int 0) = false -> wrap_x x = x)
  /\ wrap_x (F64.of_int SCREEN_WIDTH) = F64.of_int SCREEN_WIDTH
  /\ wrap_x (F64.of_int 0) = F64.of_int 0
  /\ wrap_x (wrap_x x) = wrap_x x
  /\ (F64.is_nan x = false ->
      F64.leb (F64.of_int 0) (wrap_x x) = true
      /\ F64.leb (wrap_x x) (F64.of_int SCREEN_WIDTH) = true)
  /\ (forall p : Player,
        Vector2.x (Player_pos p) = x ->
        Player_pos (Player_update_wrap p)
        = Vector2.mk (wrap_x x) (Vector2.y (Player_pos p))).
Proof.
  repeat split.
  - intros H. rewrite wrap_x_cases, H. reflexivity.
  - intros H1 H2. rewrite wrap_x_cases, H1, H2. reflexivity.
  - intros H1 H2. rewrite wrap_x_cases, H1, H2. reflexivity.
  - destruct (wrap_x_guards x) as [G1 G2].
    rewrite (wrap_x_cases (wrap_x x)), G1, G2. reflexivity.
  - apply wrap_x_range; assumption.
  - apply wrap_x_range; assumption.
  - intros p Hp. unfold Player_update_wrap; simpl. rewrite Hp. reflexivity.
Qed.

(** C5 as stated fails at the two boundary positions: exactly SCREEN_WIDTH is
    not sent to 0 and exactly 0 is not sent to SCREEN_WIDTH. *)
Lemma wrap_boundary_fixed :
  wrap_x (F64.of_int SCREEN_WIDTH) <> F64.of_int 0
  /\ wrap_x (F64.of_int 0) <> F64.of_int SCREEN_WIDTH
  /\ Vector2.x (Player_pos (Player_update_wrap
        (Player_set_pos Player_init
           (Vector2.mk (F64.of_int SCREEN_WIDTH) (F64.of_int 400)))))
     = F64.of_int SCREEN_WIDTH.
Proof.
  repeat split; vm_compute; congruence.
Qed.

(** ** Patrols of platforms and enemies *)

(** The rule both [Platform.update] and [Enemy.update] apply to [rect.x] and
    [direction]: move first, then reverse when the distance to the origin
    exceeds the range. *)
Definition patrol_step (start range speed : Z) (xd : Z * Z) : Z * Z :=
  let x := fst xd + speed * snd xd in
  (x, if Z.abs (x - start) >? range then snd xd * -1 else snd xd).

Lemma Platform_update_patrol (p : Platform) :
  Platform_is_moving p = true ->
  (Rect.x (Platform_rect (Platform_update p)), Platform_direction (Platform_update p))
  = patrol_step (Platform_start_pos p) (Platform_move_range p) (Platform_move_speed p)
      (Rect.x (Platform_rect p), Platform_direction p)
  /\ Platform_start_pos (Platform_update p) = Platform_start_pos p
  /\ Platform_move_range (Platform_update p) = Platform_move_range p
  /\ Platform_move_speed (Platform_update p) = Platform_move_speed p
  /\ Platform_is_moving (Platform_update p) = true.
Proof.
  intros H. unfold Platform_update, patrol_step. rewrite H. simpl.
  repeat split; assumption.
Qed.

Lemma Enemy_update_patrol (e : Enemy) :
  (Rect.x (Enemy_rect (Enemy_update e)), Enemy_direction (Enemy_update e))
  = patrol_step (Enemy_start_pos e) (Enemy_patrol_range e) (Enemy_speed e)
      (Rect.x (Enemy_rect e), Enemy_direction e)
  /\ Enemy_start_pos (Enemy_update e) = Enemy_start_pos e
  /\ Enemy_patrol_range (Enemy_update e) = Enemy_patrol_range e
  /\ Enemy_speed (Enemy_update e) = Enemy_speed e.
Proof.
  unfold Enemy_update, patrol_step. simpl. repeat split.
Qed.

(** What a patrol maintains: the sprite is at most one step outside the range,
    and when it is outside it already heads back. *)
Definition patrol_inv (start range speed : Z) (xd : Z * Z) : Prop :=
  (snd xd = 1 \/ snd xd = -1)
  /\ start - range - speed <= fst xd <= start + range + speed
  /\ (fst xd > start + range -> snd xd = -1)
  /\ (fst xd < start - range -> snd xd = 1).

Section Patrol.

Variables start range speed : Z.
Hypothesis range_nonneg : 0 <= range.
Hypothesis speed_nonneg : 0 <= speed.

Lemma patrol_inv_init : patrol_inv start range speed (start, 1).
Proof. unfold patrol_inv; simpl. repeat split; lia. Qed.

Lemma patrol_inv_step (xd : Z * Z) :
  patrol_inv start range speed xd ->
  patrol_inv start range speed (patrol_step start range speed xd).
Proof.
  destruct xd as [x d]. unfold patrol_inv, patrol_step; simpl.
  intros (Hd & Hx & Hhi & Hlo).
  destruct (Z.abs (x + speed * d - start) >? range) eqn:E.
  - apply Z.gtb_lt in E.
    destruct Hd as [-> | ->]; repeat split; try lia.
  - assert (Z.abs (x + speed * d - start) <= range) as E'
        by (destruct (Z.gtb_spec (Z.abs (x + speed * d - start)) range); [discriminate | lia]).
    destruct Hd as [-> | ->]; repeat split; try lia.
Qed.

Lemma patrol_inv_iter (n : nat) (xd : Z * Z) :
  patrol_inv start range speed xd ->
  patrol_inv start range speed (Nat.iter n (patrol_step start range speed) xd).
Proof.
  intros H. induction n as [|n IH]; simpl; [assumption|].
  apply patrol_inv_step; assumption.
Qed.

(** The direction is negated by a step exactly when the new position is
    farther from the origin than the range. *)
Lemma patrol_step_flip (xd : Z * Z) :
  snd xd <> 0 ->
  let xd' := patrol_step start range speed xd in
  (snd xd' = - snd xd <-> Z.abs (fst xd' - start) > range)
  /\ (snd xd' = snd xd <-> Z.abs (fst xd' - start) <= range).
Proof.
  destruct xd as [x d]; unfold patrol_step; simpl. intros Hd.
  destruct (Z.gtb_spec (Z.abs (x + speed * d - start)) range); split; split; lia.
Qed.

End Patrol.

Lemma Platform_iter_patrol (n : nat) (p : Platform) :
  Platform_is_moving p = true ->
  let q := Nat.iter n Platform_update p in
  (Rect.x (Platform_rect q), Platform_direction q)
  = Nat.iter n
      (patrol_step (Platform_start_pos p) (Platform_move_range p) (Platform_move_speed p))
      (Rect.x (Platform_rect p), Platform_direction p)
  /\ Platform_start_pos q = Platform_start_pos p
  /\ Platform_move_range q = Platform_move_range p
  /\ Platform_move_speed q = Platform_move_speed p
  /\ Platform_is_moving q = true.
Proof.
  intros H. induction n as [|n IH]; cbv zeta.
  - repeat split; assumption.
  - rewrite !Nat.iter_succ.
    destruct IH as (E & Hs & Hr & Hv & Hm).
    destruct (Platform_update_patrol _ Hm) as (E' & Hs' & Hr' & Hv' & Hm').
    rewrite E', Hs', Hr', Hv', Hs, Hr, Hv, E. repeat split; assumption.
Qed.

Lemma Enemy_iter_patrol (n : nat) (e : Enemy) :
  let q := Nat.iter n Enemy_update e in
  (Rect.x (Enemy_rect q), Enemy_direction q)
  = Nat.iter n
      (patrol_step (Enemy_start_pos e) (Enemy_patrol_range e) (Enemy_speed e))
      (Rect.x (Enemy_rect e), Enemy_direction e)
  /\ Enemy_start_pos q = Enemy_start_pos e
  /\ Enemy_patrol_range q = Enemy_patrol_range e
  /\ Enemy_speed q = Enemy_speed e.
Proof.
  induction n as [|n IH]; cbv zeta.
  - repeat split.
  - rewrite !Nat.iter_succ.
    destruct IH as (E & Hs & Hr & Hv).
    destruct (Enemy_update_patrol (Nat.iter n Enemy_update e)) as (E' & Hs' & Hr' & Hv').
    rewrite E', Hs', Hr', Hv', Hs, Hr, Hv, E. repeat split.
Qed.

(** The number of updates among the first [n] that reversed the direction. *)
Fixpoint Platform_flips (n : nat) (p : Platform) : nat :=
  match n with
  | O => O
  | S n' =>
      Nat.add
        (if Platform_direction (Platform_update p) =? Platform_direction p
         then 0%nat else 1%nat)
        (Platform_flips n' (Platform_update p))
  end.

(** C4, as the code has it. A moving platform or an enemy created at [x0]
    with range [r >= 0] and speed [s >= 0] stays within
    [x0 - r - s, x0 + r + s] after every update: the move is made before the
    range is tested, so the sprite can be one step outside the range. An
    update negates the direction exactly when the new distance to the
    origin exceeds [r]. For the platform (650, range 100, speed 1), 101
    updates reverse the direction exactly once and end at x = 751. *)
Theorem patrol_within_one_step (x0 y r s : Z) (n : nat) :
  0 <= r -> 0 <= s ->
  (forall width height,
     let p := Nat.iter n Platform_update (Platform_init x0 y width height true r s) in
     x0 - r - s <= Rect.x (Platform_rect p) <= x0 + r + s
     /\ (Platform_direction (Platform_update p) = - Platform_direction p
         <-> Z.abs (Rect.x (Platform_rect (Platform_update p)) - x0) > r)
     /\ (Platform_direction (Platform_update p) = Platform_direction p
         <-> Z.abs (Rect.x (Platform_rect (Platform_update p)) - x0) <= r))
  /\ (let e := Nat.iter n Enemy_update (Enemy_init x0 y r s) in
      x0 - r - s <= Rect.x (Enemy_rect e) <= x0 + r + s
      /\ (Enemy_direction (Enemy_update e) = - Enemy_direction e
          <-> Z.abs (Rect.x (Enemy_rect (Enemy_update e)) - x0) > r)
      /\ (Enemy_direction (Enemy_update e) = Enemy_direction e
          <-> Z.abs (Rect.x (Enemy_rect (Enemy_update e)) - x0) <= r))
  /\ (let p := Nat.iter 101 Platform_update (Platform_init 650 350 100 20 true 100 1) in
      Rect.x (Platform_rect p) = 751
      /\ Platform_direction p = -1
      /\ Platform_flips 101 (Platform_init 650 350 100 20 true 100 1) = 1%nat
      /\ 650 - 100 - 1 <= Rect.x (Platform_rect p) <= 650 + 100 + 1).
Proof.
  intros Hr Hs. split; [|split].
  - intros width height p.
    destruct (Platform_iter_patrol n (Platform_init x0 y width height true r s) eq_refl)
      as (E & Hst & Hrg & Hsp & Hm). fold p in E, Hst, Hrg, Hsp, Hm.
    simpl in E, Hst, Hrg, Hsp.
    pose proof (patrol_inv_iter x0 r s Hr Hs n (x0, 1) (patrol_inv_init x0 r s Hr Hs)) as Hinv.
    rewrite <- E in Hinv. destruct Hinv as (Hd & Hx & _). simpl in Hd, Hx.
    destruct (Platform_update_patrol p Hm) as (E' & _).
    rewrite Hst, Hrg, Hsp in E'.
    assert (Platform_direction p <> 0) as Hnz by (destruct Hd; lia).
    pose proof (patrol_step_flip x0 r s (Rect.x (Platform_rect p), Platform_direction p) Hnz) as F.
    cbv zeta in F. rewrite <- E' in F. simpl in F.
    split; [exact Hx | exact F].
  - intros e.
    destruct (Enemy_iter_patrol n (Enemy_init x0 y r s)) as (E & Hst & Hrg & Hsp).
    fold e in E, Hst, Hrg, Hsp. simpl in E, Hst, Hrg, Hsp.
    pose proof (patrol_inv_iter x0 r s Hr Hs n (x0, 1) (patrol_inv_init x0 r s Hr Hs)) as Hinv.
    rewrite <- E in Hinv. destruct Hinv as (Hd & Hx & _). simpl in Hd, Hx.
    destruct (Enemy_update_patrol e) as (E' & _).
    rewrite Hst, Hrg, Hsp in E'.
    assert (Enemy_direction e <> 0) as Hnz by (destruct Hd; lia).
    pose proof (patrol_step_flip x0 r s (Rect.x (Enemy_rect e), Enemy_direction e) Hnz) as F.
    cbv zeta in F. rewrite <- E' in F. simpl in F.
    split; [exact Hx | exact F].
  - vm_compute. repeat split; congruence.
Qed.

Lemma patrol_within_one_step_witness :
  let e := Nat.iter 82 Enemy_update (Enemy_init 300 280 80 1) in
  300 - 80 - 1 <= Rect.x (Enemy_rect e) <= 300 + 80 + 1.
Proof.
  apply (patrol_within_one_step 300 280 80 1 82); lia.
Defined.

(** C4 as stated fails on its own scenario: after 101 updates the platform of
    origin 650, range 100 and speed 1 is at x = 751, outside [550, 750]. *)
Lemma patrol_overshoots :
  let p := Nat.iter 101 Platform_update (Platform_init 650 350 100 20 true 100 1) in
  Rect.x (Platform_rect p) = 751
  /\ ~ (650 - 100 <= Rect.x (Platform_rect p) <= 650 + 100).
Proof.
  vm_compute. split; [reflexivity|]. intros [_ H]. apply H. reflexivity.
Qed.

(** ** The motion update *)

(** Float arithmetic is kept folded while goals are simplified. *)
Arguments F64.add : simpl never.
Arguments F64.mul : simpl never.
Arguments F64.div : simpl never.
Arguments F64.opp : simpl never.
Arguments F64.abs : simpl never.
Arguments F64.ltb : simpl never.
Arguments F64.leb : simpl never.
Arguments F64.of_int : simpl never.
Arguments F64.lit : simpl never.
Arguments F64.to_int : simpl never.
Arguments PLAYER_ACC : simpl never.
Arguments PLAYER_FRICTION : simpl never.
Arguments PLAYER_GRAVITY : simpl never.
Arguments PLAYER_JUMP : simpl never.
Arguments wrap_x : simpl never.

(** What [player_die] does to each field. *)
Lemma Game_player_die_fields (g : Game) :
  let g' := Game_player_die g in
  let p := Game_player g in
  let p' := Game_player g' in
  Player_lives p' = Player_lives p - 1
  /\ Player_rect p' = Player_rect p
  /\ Player_jumping p' = Player_jumping p
  /\ Player_acc p' = Player_acc p
  /\ Player_facing_right p' = Player_facing_right p
  /\ Player_on_ground p' = Player_on_ground p
  /\ Game_game_state g'
     = (if Player_lives p - 1 <=? 0 then GAME_OVER else Game_game_state g)
  /\ Game_score g' = Game_score g
  /\ Game_coins g' = Game_coins g
  /\ Game_enemies g' = Game_enemies g
  /\ Game_platforms g' = Game_platforms g
  /\ Game_level g' = Game_level g
  /\ Game_running g' = Game_running g
  /\ Game_played g' = death_sound :: Game_played g.
Proof.
  unfold Game_player_die; simpl.
  destruct (Player_lives (Game_player g) - 1 <=? 0); simpl; repeat split.
Qed.

(** The player after lines 97-124 of [Player.update]: moved, wrapped, and
    with the rectangle put at the new position. *)
Definition Player_moved (keys : Pressed) (p : Player) : Player :=
  let p := Player_update_wrap (Player_update_motion keys p) in
  Player_set_rect p
    (Rect.set_midbottom (Player_rect p)
       (F64.to_int (Vector2.x (Player_pos p)))
       (F64.to_int (Vector2.y (Player_pos p)))).

Lemma Player_update_eq (keys : Pressed) (g : Game) :
  Player_update keys g =
  if Rect.top (Player_rect (Player_moved keys (Game_player g))) >? SCREEN_HEIGHT
  then Game_player_die (Game_set_player g (Player_moved keys (Game_player g)))
  else Game_set_player g (Player_moved keys (Game_player g)).
Proof. reflexivity. Qed.

(** The horizontal acceleration the keys ask for: right wins over left. *)
Definition input_acc (keys : Pressed) : F64.float :=
  if keys K_RIGHT then PLAYER_ACC
  else if keys K_LEFT then F64.opp PLAYER_ACC
  else F64.of_int 0.

(** The motion update in one equation. *)
Lemma Player_update_motion_eq (keys : Pressed) (p : Player) :
  Player_update_motion keys p =
  let ax := F64.add (input_acc keys)
              (F64.mul (Vector2.x (Player_vel p)) PLAYER_FRICTION) in
  let vx1 := F64.add (Vector2.x (Player_vel p)) ax in
  let vx := if F64.ltb (F64.abs vx1) (F64.lit 1 10) then F64.of_int 0 else vx1 in
  let vy := F64.add (Vector2.y (Player_vel p)) PLAYER_GRAVITY in
  mkPlayer (Player_rect p)
    (Vector2.mk
       (F64.add (Vector2.x (Player_pos p)) (F64.add vx (F64.mul (F64.lit 5 10) ax)))
       (F64.add (Vector2.y (Player_pos p))
          (F64.add vy (F64.mul (F64.lit 5 10) PLAYER_GRAVITY))))
    (Vector2.mk vx vy)
    (Vector2.mk ax PLAYER_GRAVITY)
    (if keys K_RIGHT then true
     else if keys K_LEFT then false else Player_facing_right p)
    (Player_jumping p) (Player_on_ground p) (Player_lives p).
Proof.
  destruct p as [r [px py] [vx vy] [ax ay] fr j og l].
  unfold Player_update_motion, input_acc.
  destruct (keys K_LEFT), (keys K_RIGHT); simpl;
    match goal with |- context [F64.ltb ?a ?b] => destruct (F64.ltb a b) end;
    reflexivity.
Qed.

(** The states of the first [n] ticks of the update, the start included. *)
Fixpoint Game_trajectory (n : nat) (keys : Pressed) (g : Game) : list Game :=
  match n with
  | O => [g]
  | S n' => g :: Game_trajectory n' keys (Game_update keys g)
  end.

Fixpoint strictly_increasing (l : list F64.float) : bool :=
  match l with
  | a :: (b :: _) as rest => F64.ltb a b && strictly_increasing rest
  | _ => true
  end.

(** A player at rest at the start position, in a world without platforms. *)
Definition free_fall_start : Game :=
  mkGame true PLAYING 0 1 [] [] [] Player_init [].

(** C7. One motion update yields: acceleration ([a] + vel.x * friction,
    gravity) where [a] is +acc if right is held, else -acc if left is held,
    else 0; velocity = old velocity + acceleration, with an x component of
    magnitude below 0.1 replaced by 0; position = old position + (velocity +
    0.5 * acceleration). From rest, in a world without platforms, over 10
    ticks vel.y and pos.y strictly increase and the ground probe never finds
    a platform. *)
Theorem motion_closed_form (keys : Pressed) (p : Player) :
  let ax := F64.add (input_acc keys)
              (F64.mul (Vector2.x (Player_vel p)) PLAYER_FRICTION) in
  let ay := PLAYER_GRAVITY in
  let vx1 := F64.add (Vector2.x (Player_vel p)) ax in
  let vx := if F64.ltb (F64.abs vx1) (F64.lit 1 10) then F64.of_int 0 else vx1 in
  let vy := F64.add (Vector2.y (Player_vel p)) ay in
  let q := Player_update_motion keys p in
  Player_acc q = Vector2.mk ax ay
  /\ Player_vel q = Vector2.mk vx vy
  /\ Player_pos q =
       Vector2.mk
         (F64.add (Vector2.x (Player_pos p)) (F64.add vx (F64.mul (F64.lit 5 10) ax)))
         (F64.add (Vector2.y (Player_pos p)) (F64.add vy (F64.mul (F64.lit 5 10) ay)))
  /\ (forall g, Game_player g = p ->
        let g' := Player_update keys g in
        Rect.top (Player_rect (Game_player g')) <= SCREEN_HEIGHT ->
        Player_vel (Game_player g') = Player_vel q
        /\ Player_pos (Game_player g')
           = Vector2.mk (wrap_x (Vector2.x (Player_pos q))) (Vector2.y (Player_pos q)))
  /\ (let states := Game_trajectory 10 no_keys free_fall_start in
      strictly_increasing (map (fun g => Vector2.y (Player_vel (Game_player g))) states) = true
      /\ strictly_increasing (map (fun g => Vector2.y (Player_pos (Game_player g))) states) = true
      /\ forallb (fun g => is_empty (ground_probe g)) states = true
      /\ forallb (fun g => Player_lives (Game_player g) =? 3) states = true).
Proof.
  cbv zeta. split; [|split; [|split; [|split]]].
  - rewrite Player_update_motion_eq. reflexivity.
  - rewrite Player_update_motion_eq. reflexivity.
  - rewrite Player_update_motion_eq. reflexivity.
  - intros g Hg. rewrite Player_update_eq, Hg.
    destruct (Rect.top (Player_rect (Player_moved keys p)) >? SCREEN_HEIGHT) eqn:E.
    + intros H. exfalso. apply Z.gtb_lt in E.
      destruct (Game_player_die_fields (Game_set_player g (Player_moved keys p)))
        as (_ & Hr & _).
      rewrite Hr in H. cbn [Game_player Game_set_player] in H. lia.
    + intros _. split; reflexivity.
  - vm_compute. repeat split.
Qed.

(** ** Landing *)







(** ** What each phase of a tick does to each field *)

(** Reduces field reads of field assignments, and nothing else. *)
Ltac player_fields :=
  cbn [Player_rect Player_pos Player_vel Player_acc Player_facing_right
       Player_jumping Player_on_ground Player_lives
       Player_set_rect Player_set_pos Player_set_vel Player_set_acc
       Player_set_facing_right Player_set_jumping Player_set_lives
       Rect.x Rect.y Rect.w Rect.h Rect.set_midbottom].

Lemma Player_moved_fields (keys : Pressed) (p : Player) :
  let q := Player_moved keys p in
  Player_lives q = Player_lives p
  /\ Player_jumping q = Player_jumping p
  /\ Player_on_ground q = Player_on_ground p
  /\ Rect.w (Player_rect q) = Rect.w (Player_rect p)
  /\ Rect.h (Player_rect q) = Rect.h (Player_rect p).
Proof.
  unfold Player_moved, Player_update_wrap.
  rewrite Player_update_motion_eq. cbv zeta. player_fields. repeat split.
Qed.

(** Whether the motion update took the player below the screen. *)
Definition fell (keys : Pressed) (g : Game) : bool :=
  Rect.top (Player_rect (Player_moved keys (Game_player g))) >? SCREEN_HEIGHT.

Lemma Player_update_fields (keys : Pressed) (g : Game) :
  let g' := Player_update keys g in
  Player_rect (Game_player g') = Player_rect (Player_moved keys (Game_player g))
  /\ Player_jumping (Game_player g') = Player_jumping (Game_player g)
  /\ Player_lives (Game_player g')
     = (if fell keys g then Player_lives (Game_player g) - 1
        else Player_lives (Game_player g))
  /\ Game_game_state g'
     = (if fell keys g && (Player_lives (Game_player g) - 1 <=? 0)
        then GAME_OVER else Game_game_state g)
  /\ Game_score g' = Game_score g
  /\ Game_coins g' = Game_coins g
  /\ Game_enemies g' = Game_enemies g
  /\ Game_platforms g' = Game_platforms g
  /\ Game_level g' = Game_level g
  /\ Game_running g' = Game_running g.
Proof.
  cbv zeta. rewrite Player_update_eq. unfold fell.
  destruct (Player_moved_fields keys (Game_player g)) as (Hl & Hj & _).
  destruct (Rect.top (Player_rect (Player_moved keys (Game_player g))) >? SCREEN_HEIGHT).
  - destruct (Game_player_die_fields
                (Game_set_player g (Player_moved keys (Game_player g))))
      as (L & R & J & _ & _ & _ & S & Sc & C & E & P & Lv & Rn & _).
    cbn [Game_player Game_set_player Game_game_state Game_score Game_coins
         Game_enemies Game_platforms Game_level Game_running] in *.
    rewrite L, R, J, S, Hl, Hj. cbn [andb]. repeat split; assumption.
  - cbn [Game_player Game_set_player Game_game_state Game_score Game_coins
         Game_enemies Game_platforms Game_level Game_running andb].
    repeat split; assumption.
Qed.

Lemma Game_update_sprites_fields (keys : Pressed) (g : Game) :
  let g' := Game_update_sprites keys g in
  Game_player g' = Game_player (Player_update keys g)
  /\ Game_game_state g' = Game_game_state (Player_update keys g)
  /\ Game_score g' = Game_score g
  /\ Game_coins g' = Game_coins g
  /\ Game_enemies g' = map Enemy_update (Game_enemies g)
  /\ Game_platforms g' = map Platform_update (Game_platforms g)
  /\ Game_level g' = Game_level g
  /\ Game_running g' = Game_running g.
Proof.
  destruct (Player_update_fields keys g) as (_ & _ & _ & _ & Sc & C & E & P & Lv & Rn).
  unfold Game_update_sprites. cbv zeta.
  revert Sc C E P Lv Rn. generalize (Player_update keys g).
  intros g1 Sc C E P Lv Rn. destruct g1; simpl in *. subst. repeat split.
Qed.

Lemma Game_update_landing_fields (g : Game) :
  let g' := Game_update_landing g in
  Player_rect (Game_player g') = Player_rect (Game_player g)
  /\ Player_lives (Game_player g') = Player_lives (Game_player g)
  /\ Game_game_state g' = Game_game_state g
  /\ Game_score g' = Game_score g
  /\ Game_coins g' = Game_coins g
  /\ Game_enemies g' = Game_enemies g
  /\ Game_platforms g' = Game_platforms g
  /\ Game_level g' = Game_level g
  /\ Game_running g' = Game_running g
  /\ Game_played g' = Game_played g.
Proof.
  unfold Game_update_landing.
  destruct (F64.ltb (F64.of_int 0) _); [|repeat split].
  destruct (platform_hits g) as [|first rest]; [repeat split|].
  cbv zeta. destruct (F64.ltb _ _); repeat split.
Qed.

(** The coins the player's rectangle collides with, and the others. *)
Definition coin_hits (g : Game) : list Coin :=
  fst (spritecollide Coin_rect (Player_rect (Game_player g)) (Game_coins g) true).

Definition coins_left (g : Game) : list Coin :=
  snd (spritecollide Coin_rect (Player_rect (Game_player g)) (Game_coins g) true).

Lemma repeat_shift {A : Type} (a : A) (n : nat) (l : list A) :
  repeat a n ++ a :: l = a :: repeat a n ++ l.
Proof.
  induction n as [|n IH]; simpl; [reflexivity|]. rewrite IH. reflexivity.
Qed.

Lemma coin_steps_fields (hits : list Coin) (g : Game) :
  let g' := fold_left coin_step hits g in
  Game_player g' = Game_player g
  /\ Game_coins g' = Game_coins g
  /\ Game_score g' = Game_score g + 10 * Z.of_nat (length hits)
  /\ Game_game_state g'
     = (if negb (is_empty hits) && is_empty (Game_coins g)
        then WIN else Game_game_state g)
  /\ Game_enemies g' = Game_enemies g
  /\ Game_platforms g' = Game_platforms g
  /\ Game_level g' = Game_level g
  /\ Game_running g' = Game_running g
  /\ Game_played g' = repeat coin_sound (length hits) ++ Game_played g.
Proof.
  revert g. induction hits as [|c hits IH]; intros g.
  - simpl. rewrite Z.add_0_r. repeat split.
  - cbn [fold_left]. specialize (IH (coin_step g c)).
    destruct IH as (P & C & Sc & St & E & Pl & Lv & Rn & Pd).
    cbv zeta. rewrite P, C, Sc, St, E, Pl, Lv, Rn, Pd. clear.
    destruct g as [rn st sc lv pl en co p pd]. unfold coin_step.
    destruct co as [|c0 cs]; destruct hits as [|c1 hits];
      cbn -[Z.of_nat Z.mul Z.add]; repeat split; try reflexivity; try lia;
      f_equal; apply repeat_shift.
Qed.

Lemma Game_update_coins_fields (g : Game) :
  let g' := Game_update_coins g in
  Game_player g' = Game_player g
  /\ Game_coins g' = coins_left g
  /\ Game_score g' = Game_score g + 10 * Z.of_nat (length (coin_hits g))
  /\ Game_game_state g'
     = (if negb (is_empty (coin_hits g)) && is_empty (coins_left g)
        then WIN else Game_game_state g)
  /\ Game_enemies g' = Game_enemies g
  /\ Game_platforms g' = Game_platforms g
  /\ Game_level g' = Game_level g
  /\ Game_running g' = Game_running g
  /\ Game_played g' = repeat coin_sound (length (coin_hits g)) ++ Game_played g.
Proof.
  unfold Game_update_coins, coin_hits, coins_left.
  destruct (spritecollide Coin_rect (Player_rect (Game_player g)) (Game_coins g) true)
    as [hits rest].
  cbn [fst snd].
  destruct (coin_steps_fields hits (Game_set_coins g rest))
    as (P & C & Sc & St & E & Pl & Lv & Rn & Pd).
  cbv zeta. rewrite P, C, Sc, St, E, Pl, Lv, Rn, Pd. repeat split.
Qed.

Lemma Game_update_enemies_fields (g : Game) :
  let g' := Game_update_enemies g in
  let hit := negb (is_empty (enemy_hits g)) in
  Player_rect (Game_player g') = Player_rect (Game_player g)
  /\ Player_jumping (Game_player g') = Player_jumping (Game_player g)
  /\ Player_lives (Game_player g')
     = (if hit then Player_lives (Game_player g) - 1 else Player_lives (Game_player g))
  /\ Game_game_state g'
     = (if hit && (Player_lives (Game_player g) - 1 <=? 0)
        then GAME_OVER else Game_game_state g)
  /\ Game_score g' = Game_score g
  /\ Game_coins g' = Game_coins g
  /\ Game_enemies g' = Game_enemies g
  /\ Game_platforms g' = Game_platforms g
  /\ Game_level g' = Game_level g
  /\ Game_running g' = Game_running g.
Proof.
  unfold Game_update_enemies.
  destruct (negb (is_empty (enemy_hits g))); cbn [andb]; [|repeat split].
  destruct (Game_player_die_fields g)
    as (L & R & J & _ & _ & _ & S & Sc & C & E & P & Lv & Rn & _).
  repeat split; assumption.
Qed.

(** ** The jumping flag across a death *)

Lemma Game_events_jumping (evs : list Event) (g : Game) :
  Game_game_state g = PLAYING ->
  Player_jumping (Game_player g) = true ->
  Game_events evs g = g \/ Game_events evs g = Game_set_running g false.
Proof.
  intros Hs Hj.
  assert (forall g0 e, g0 = g \/ g0 = Game_set_running g false ->
            Game_handle_event g0 e = g0 \/ Game_handle_event g0 e = Game_set_running g false)
    as Hstep.
  { intros g0 e Hg0.
    assert (Game_game_state g0 = PLAYING) as Hs0 by (destruct Hg0; subst; assumption).
    assert (Player_jumping (Game_player g0) = true) as Hj0 by (destruct Hg0; subst; assumption).
    assert (Player_jump g0 = g0) as Hno by (apply jump_noop; assumption).
    assert (Game_set_running g0 false = Game_set_running g false) as Hr
      by (destruct Hg0; subst; reflexivity).
    destruct e as [|k|]; simpl.
    - right. exact Hr.
    - destruct k; simpl; rewrite ?Hs0, ?Hno; auto.
    - left. reflexivity. }
  unfold Game_events.
  assert (forall g0, g0 = g \/ g0 = Game_set_running g false ->
            fold_left Game_handle_event evs g0 = g
            \/ fold_left Game_handle_event evs g0 = Game_set_running g false) as H.
  { induction evs as [|e evs IH]; intros g0 Hg0; simpl; [assumption|].
    apply IH. destruct (Hstep g0 e Hg0) as [-> | ->]; auto. }
  apply H. left. reflexivity.
Qed.

Lemma Game_update_eq (keys : Pressed) (g : Game) :
  Game_update keys g
  = Game_update_enemies
      (Game_update_coins (Game_update_landing (Game_update_sprites keys g))).
Proof. reflexivity. Qed.

Lemma Game_run_iteration_eq (evs : list Event) (keys : Pressed) (g : Game) :
  Game_run_iteration evs keys g
  = if GameState_eqb (Game_game_state (Game_events evs g)) PLAYING
    then Game_update keys (Game_events evs g) else Game_events evs g.
Proof. reflexivity. Qed.

Lemma Game_run_iteration_cases (evs : list Event) (keys : Pressed) (g : Game) :
  (Game_game_state (Game_events evs g) = PLAYING
   /\ Game_run_iteration evs keys g = Game_update keys (Game_events evs g))
  \/ (Game_game_state (Game_events evs g) <> PLAYING
      /\ Game_run_iteration evs keys g = Game_events evs g).
Proof.
  rewrite Game_run_iteration_eq.
  generalize (Game_update keys (Game_events evs g)).
  generalize (Game_events evs g). intros ge u.
  destruct (Game_game_state ge); cbn [GameState_eqb];
    [right | left | right | right]; split; congruence.
Qed.

(** The flag after the phases that follow the sprite update is the flag the
    landing phase leaves. *)
Lemma Game_update_jumping (keys : Pressed) (g : Game) :
  Player_jumping (Game_player (Game_update keys g))
  = Player_jumping (Game_player (Game_update_landing (Game_update_sprites keys g)))
  /\ Player_jumping (Game_player (Game_update_sprites keys g))
     = Player_jumping (Game_player g).
Proof.
  rewrite Game_update_eq.
  generalize (Game_update_sprites_fields keys g).
  generalize (Game_update_sprites keys g). intros g1 F1.
  destruct (Game_update_enemies_fields (Game_update_coins (Game_update_landing g1)))
    as (_ & J3 & _).
  destruct (Game_update_coins_fields (Game_update_landing g1)) as (P2 & _).
  rewrite J3, P2. split; [reflexivity|].
  destruct F1 as (P1 & _). rewrite P1.
  destruct (Player_update_fields keys g) as (_ & J & _). exact J.
Qed.

(** The landing phase clears a set flag only by resolving a landing. *)
Lemma landing_clears_flag (g : Game) :
  Player_jumping (Game_player g) = true ->
  Player_jumping (Game_player (Game_update_landing g)) = false ->
  F64.ltb (F64.of_int 0) (Vector2.y (Player_vel (Game_player g))) = true
  /\ exists first rest,
       platform_hits g = first :: rest
       /\ F64.ltb (Vector2.y (Player_pos (Game_player g)))
            (F64.of_int
               (Rect.centery (Platform_rect (lowest_of first (first :: rest)))))
          = true.
Proof.
  intros Hj. unfold Game_update_landing.
  destruct (F64.ltb (F64.of_int 0) (Vector2.y (Player_vel (Game_player g))));
    [|congruence].
  intros Hend. split; [reflexivity|].
  destruct (platform_hits g) as [|first rest]; [congruence|].
  exists first, rest. split; [reflexivity|].
  cbv zeta in Hend.
  destruct (F64.ltb (Vector2.y (Player_pos (Game_player g))) _);
    [reflexivity | congruence].
Qed.

(** C10. The respawn branch of the death procedure changes the player's
    position, velocity and lives only: the jumping flag (like the rectangle)
    keeps its value. A jump request with the flag set changes nothing. While
    the game is played, a tick that starts with the flag set ends with it
    cleared only if its collision phase resolved a landing. *)
Theorem respawn_keeps_jumping (g : Game) :
  (Player_lives (Game_player g) - 1 > 0 ->
     let p := Game_player g in
     Game_player (Game_player_die g)
     = mkPlayer (Player_rect p)
         (Vector2.mk (F64.of_int 100) (F64.of_int (SCREEN_HEIGHT - 200)))
         (Vector2.mk (F64.of_int 0) (F64.of_int 0))
         (Player_acc p) (Player_facing_right p) (Player_jumping p)
         (Player_on_ground p) (Player_lives p - 1))
  /\ (Player_jumping (Game_player g) = true -> Player_jump g = g)
  /\ (forall evs keys,
        Game_game_state g = PLAYING ->
        Player_jumping (Game_player g) = true ->
        Player_jumping (Game_player (Game_run_iteration evs keys g)) = false ->
        let g1 := Game_update_sprites keys (Game_events evs g) in
        Player_jumping (Game_player g1) = true
        /\ F64.ltb (F64.of_int 0) (Vector2.y (Player_vel (Game_player g1))) = true
        /\ exists first rest,
             platform_hits g1 = first :: rest
             /\ F64.ltb (Vector2.y (Player_pos (Game_player g1)))
                  (F64.of_int
                     (Rect.centery (Platform_rect (lowest_of first (first :: rest)))))
                = true).
Proof.
  split; [|split].
  - intros Hl. unfold Game_player_die; simpl.
    destruct (Player_lives (Game_player g) - 1 <=? 0) eqn:E;
      [apply Z.leb_le in E; lia | reflexivity].
  - apply jump_noop.
  - intros evs keys Hs Hj Hend g1. subst g1.
    assert (Game_game_state (Game_events evs g) = PLAYING
            /\ Player_jumping (Game_player (Game_events evs g)) = true) as [Hs' Hj'].
    { destruct (Game_events_jumping evs g Hs Hj) as [-> | ->]; split; assumption. }
    destruct (Game_run_iteration_cases evs keys g) as [[_ E] | [E _]];
      [|congruence].
    rewrite E in Hend. clear E Hs'.
    revert Hend Hj'. generalize (Game_events evs g). intros g0 Hend Hj'.
    destruct (Game_update_jumping keys g0) as (J & J1).
    rewrite J in Hend. rewrite <- J1 in Hj'.
    split; [exact Hj'|].
    apply landing_clears_flag; assumption.
Qed.

(** ** Sprites above the bottom edge of the screen *)

(** A rectangle that does not reach below the screen. *)
Definition in_screen (r : Rect.t) : Prop :=
  Rect.y r <= SCREEN_HEIGHT /\ Rect.y r + Rect.h r <= SCREEN_HEIGHT.

Lemma colliderect_below (a b : Rect.t) :
  0 <= Rect.h a -> Rect.top a > SCREEN_HEIGHT -> in_screen b ->
  Rect.colliderect a b = false.
Proof.
  unfold Rect.colliderect, Rect.top, in_screen. intros Ha Ht [Hy Hb].
  destruct ((Rect.w a =? 0) || (Rect.h a =? 0) || (Rect.w b =? 0) || (Rect.h b =? 0));
    [reflexivity|].
  assert ((Z.min (Rect.y a) (Rect.y a + Rect.h a)
           <? Z.max (Rect.y b) (Rect.y b + Rect.h b)) = false) as ->
    by (apply Z.ltb_ge; lia).
  rewrite andb_false_r. reflexivity.
Qed.

Lemma spritecollide_below {A : Type} (rect_of : A -> Rect.t) (r : Rect.t)
    (group : list A) (dokill : bool) :
  0 <= Rect.h r -> Rect.top r > SCREEN_HEIGHT ->
  Forall (fun s => in_screen (rect_of s)) group ->
  spritecollide rect_of r group dokill = ([], group).
Proof.
  intros Hh Ht Hall. unfold spritecollide.
  assert (filter (fun s => Rect.colliderect r (rect_of s)) group = []
          /\ filter (fun s => negb (Rect.colliderect r (rect_of s))) group = group)
    as [-> E].
  { induction Hall as [|s group Hs Hall IH]; simpl; [split; reflexivity|].
    rewrite (colliderect_below r (rect_of s) Hh Ht Hs). simpl.
    destruct IH as [-> ->]. split; reflexivity. }
  rewrite E. destruct dokill; reflexivity.
Qed.

Lemma Enemy_update_in_screen (l : list Enemy) :
  Forall (fun e => in_screen (Enemy_rect e)) l ->
  Forall (fun e => in_screen (Enemy_rect e)) (map Enemy_update l).
Proof.
  intros H. induction H as [|e l He Hl IH]; simpl; constructor; assumption.
Qed.

Lemma filter_in_screen {A : Type} (rect_of : A -> Rect.t) (f : A -> bool) (l : list A) :
  Forall (fun s => in_screen (rect_of s)) l ->
  Forall (fun s => in_screen (rect_of s)) (filter f l).
Proof.
  intros H. induction H as [|s l Hs Hl IH]; simpl; [constructor|].
  destruct (f s); [constructor|]; assumption.
Qed.

Lemma filter_split_length {A : Type} (f : A -> bool) (l : list A) :
  (length (filter f l) + length (filter (fun s => negb (f s)) l) = length l)%nat.
Proof.
  induction l as [|a l IH]; simpl; [reflexivity|].
  destruct (f a); simpl; lia.
Qed.

(** Both level tables keep every enemy and every coin above the bottom edge. *)
Lemma create_level_in_screen (level : Z) :
  Forall (fun e => in_screen (Enemy_rect e))
    (map (fun e => match e with (x, y, r) => Enemy_init x y r 1 end) (enemy_list level))
  /\ Forall (fun c => in_screen (Coin_rect c))
       (map (fun c => match c with (x, y) => Coin_init x y end) (coin_list level)).
Proof.
  unfold enemy_list, coin_list, in_screen.
  destruct (level =? 1); split;
    repeat (constructor; [vm_compute; split; congruence|]); constructor.
Qed.

Lemma Game_new_game_fields (g : Game) :
  let g' := Game_new_game g in
  Game_player g' = Player_init
  /\ Game_game_state g' = PLAYING
  /\ Game_score g' = 0
  /\ Game_level g' = Game_level g
  /\ Game_running g' = Game_running g
  /\ Game_enemies g'
     = map (fun e => match e with (x, y, r) => Enemy_init x y r 1 end)
         (enemy_list (Game_level g))
  /\ Game_coins g'
     = map (fun c => match c with (x, y) => Coin_init x y end)
         (coin_list (Game_level g))
  /\ Game_platforms g'
     = Platform_init 0 (SCREEN_HEIGHT - 40) SCREEN_WIDTH 40 false 0 0
       :: map Platform_of_spec (platform_list (Game_level g))
  /\ Game_played g' = Game_played g.
Proof.
  destruct g as [rn st sc lv pl en co p pd].
  unfold Game_new_game, Game_create_level.
  cbn [Game_level Game_set_score Game_set_game_state Game_set_platforms
       Game_set_enemies Game_set_coins Game_set_player Game_platforms
       Game_enemies Game_coins Game_player Game_game_state Game_score
       Game_running Game_played app].
  repeat split.
Qed.

Lemma Player_jump_fields (g : Game) :
  let g' := Player_jump g in
  Player_rect (Game_player g') = Player_rect (Game_player g)
  /\ Player_lives (Game_player g') = Player_lives (Game_player g)
  /\ Game_game_state g' = Game_game_state g
  /\ Game_score g' = Game_score g
  /\ Game_coins g' = Game_coins g
  /\ Game_enemies g' = Game_enemies g
  /\ Game_platforms g' = Game_platforms g
  /\ Game_level g' = Game_level g
  /\ Game_running g' = Game_running g.
Proof.
  cbv zeta. rewrite Player_jump_unfold.
  destruct (negb (is_empty (ground_probe g)) && negb (Player_jumping (Game_player g)));
    repeat split.
Qed.

(** ** One tick, field by field *)

Lemma Game_update_sprites_summary (keys : Pressed) (g : Game) :
  let g1 := Game_update_sprites keys g in
  let l := Player_lives (Game_player g) in
  Player_rect (Game_player g1) = Player_rect (Player_moved keys (Game_player g))
  /\ Player_lives (Game_player g1) = (if fell keys g then l - 1 else l)
  /\ Game_game_state g1
     = (if fell keys g && (l - 1 <=? 0) then GAME_OVER else Game_game_state g)
  /\ Game_score g1 = Game_score g
  /\ Game_coins g1 = Game_coins g
  /\ Game_enemies g1 = map Enemy_update (Game_enemies g)
  /\ Game_platforms g1 = map Platform_update (Game_platforms g)
  /\ Game_level g1 = Game_level g
  /\ Game_running g1 = Game_running g.
Proof.
  destruct (Game_update_sprites_fields keys g) as (P & S & Sc & C & E & Pl & Lv & Rn).
  destruct (Player_update_fields keys g) as (R & _ & L & St & _).
  cbv zeta. rewrite P, S, R, L, St. repeat split; assumption.
Qed.

(** Whether the collision phase of the tick finds the player on an enemy. *)
Definition enemy_caught (keys : Pressed) (g : Game) : bool :=
  negb (is_empty
          (enemy_hits
             (Game_update_coins (Game_update_landing (Game_update_sprites keys g))))).

Lemma Game_update_summary (keys : Pressed) (g : Game) :
  0 <= Rect.h (Player_rect (Game_player g)) ->
  Forall (fun e => in_screen (Enemy_rect e)) (Game_enemies g) ->
  Forall (fun c => in_screen (Coin_rect c)) (Game_coins g) ->
  let g' := Game_update keys g in
  let g2 := Game_update_landing (Game_update_sprites keys g) in
  let won := negb (is_empty (coin_hits g2)) && is_empty (coins_left g2) in
  let hit := enemy_caught keys g in
  let l := Player_lives (Game_player g) in
  (fell keys g = true -> hit = false /\ coin_hits g2 = [] /\ coins_left g2 = Game_coins g)
  /\ Player_lives (Game_player g') = (if fell keys g || hit then l - 1 else l)
  /\ Game_game_state g'
     = (if (fell keys g || hit) && (l - 1 <=? 0) then GAME_OVER
        else if won then WIN else Game_game_state g)
  /\ Game_coins g' = coins_left g2
  /\ Game_score g' = Game_score g + 10 * Z.of_nat (length (coin_hits g2))
  /\ (length (coin_hits g2) + length (coins_left g2) = length (Game_coins g))%nat
  /\ Game_enemies g' = map Enemy_update (Game_enemies g)
  /\ Game_platforms g' = map Platform_update (Game_platforms g)
  /\ Game_level g' = Game_level g
  /\ Game_running g' = Game_running g
  /\ Rect.h (Player_rect (Game_player g')) = Rect.h (Player_rect (Game_player g))
  /\ Forall (fun c => in_screen (Coin_rect c)) (Game_coins g').
Proof.
  intros Hh He Hc. cbv zeta. unfold enemy_caught. rewrite Game_update_eq.
  destruct (Game_update_sprites_summary keys g)
    as (R1 & L1 & S1 & Sc1 & C1 & E1 & P1 & Lv1 & Rn1).
  destruct (Player_moved_fields keys (Game_player g)) as (_ & _ & _ & _ & Hm).
  assert (fell keys g = true ->
          Rect.top (Player_rect (Player_moved keys (Game_player g))) > SCREEN_HEIGHT) as Hfell
    by (unfold fell; intros F; apply Z.gtb_lt in F; lia).
  revert R1 L1 S1 Sc1 C1 E1 P1 Lv1 Rn1.
  generalize (Game_update_sprites keys g). intros g1 R1 L1 S1 Sc1 C1 E1 P1 Lv1 Rn1.
  destruct (Game_update_landing_fields g1)
    as (R2 & L2 & S2 & Sc2 & C2 & E2 & P2 & Lv2 & Rn2 & _).
  revert R2 L2 S2 Sc2 C2 E2 P2 Lv2 Rn2.
  generalize (Game_update_landing g1). intros g2 R2 L2 S2 Sc2 C2 E2 P2 Lv2 Rn2.
  destruct (Game_update_coins_fields g2)
    as (Pp3 & C3 & Sc3 & S3 & E3 & P3 & Lv3 & Rn3 & _).
  assert (length (coin_hits g2) + length (coins_left g2) = length (Game_coins g))%nat
    as Hlen.
  { unfold coin_hits, coins_left, spritecollide. cbn [fst snd].
    rewrite filter_split_length, C2, C1. reflexivity. }
  assert (Forall (fun c => in_screen (Coin_rect c)) (coins_left g2)) as Hleft.
  { unfold coins_left, spritecollide. cbn [snd].
    apply filter_in_screen. rewrite C2, C1. exact Hc. }
  assert (fell keys g = true ->
          coin_hits g2 = [] /\ coins_left g2 = Game_coins g
          /\ enemy_hits (Game_update_coins g2) = []) as Hbelow.
  { intros F. specialize (Hfell F).
    unfold coin_hits, coins_left, enemy_hits.
    rewrite Pp3, E3, E2, E1, R2, R1.
    rewrite (spritecollide_below Coin_rect _ (Game_coins g2) true);
      [|lia|exact Hfell|rewrite C2, C1; exact Hc].
    rewrite (spritecollide_below Enemy_rect _ (map Enemy_update (Game_enemies g)) false);
      [|lia|exact Hfell|apply Enemy_update_in_screen; exact He].
    cbn [fst snd]. rewrite C2, C1. repeat split. }
  revert Pp3 C3 Sc3 S3 E3 P3 Lv3 Rn3 Hbelow.
  generalize (Game_update_coins g2). intros g3 Pp3 C3 Sc3 S3 E3 P3 Lv3 Rn3 Hbelow.
  destruct (Game_update_enemies_fields g3)
    as (R4 & _ & L4 & S4 & Sc4 & C4 & E4 & P4 & Lv4 & Rn4).
  cbv zeta in L4, S4.
  rewrite L4, S4, Sc4, C4, E4, P4, Lv4, Rn4, R4.
  rewrite Pp3, C3, Sc3, S3, E3, P3, Lv3, Rn3.
  rewrite R2, L2, S2, Sc2, E2, P2, Lv2, Rn2.
  rewrite R1, L1, S1, Sc1, E1, P1, Lv1, Rn1, Hm.
  destruct (fell keys g) eqn:F.
  - destruct (Hbelow eq_refl) as (H1 & H2 & H3). rewrite H3, H1.
    cbn [is_empty negb andb orb].
    destruct (Player_lives (Game_player g) - 1 <=? 0);
      repeat split; try assumption; try reflexivity;
      rewrite H2; reflexivity.
  - cbn [andb orb].
    destruct (negb (is_empty (enemy_hits g3)));
      cbn [andb]; repeat split; try assumption; try reflexivity; try congruence.
Qed.

(** ** Invariants of the reachable states *)

Definition Game_inv (g : Game) : Prop :=
  let l := Player_lives (Game_player g) in
  0 <= l
  /\ (Game_game_state g = PLAYING -> 1 <= l)
  /\ (Game_game_state g = GAME_OVER -> l = 0)
  /\ (Game_game_state g = WIN -> Game_coins g = [])
  /\ 0 <= Rect.h (Player_rect (Game_player g))
  /\ Forall (fun e => in_screen (Enemy_rect e)) (Game_enemies g)
  /\ Forall (fun c => in_screen (Coin_rect c)) (Game_coins g)
  /\ ((Game_platforms g = [] /\ Game_game_state g = MENU
       /\ Game_coins g = [] /\ Game_score g = 0)
      \/ (Game_platforms g <> []
          /\ Game_score g + 10 * Z.of_nat (length (Game_coins g))
             = 10 * Z.of_nat (length (coin_list (Game_level g))))).

(** How the events of one tick can have changed lives and state: not at all,
    or a finished game went back to the menu, or a new game was started. *)
Definition events_view (g ge : Game) : Prop :=
  (Player_lives (Game_player ge) = Player_lives (Game_player g)
   /\ (Game_game_state ge = Game_game_state g
       \/ (Game_game_state ge = MENU
           /\ (Game_game_state g = GAME_OVER \/ Game_game_state g = WIN))))
  \/ (Player_lives (Game_player ge) = 3 /\ Game_game_state ge = PLAYING).

Lemma Game_inv_init : Game_inv Game_init.
Proof.
  unfold Game_inv, Game_init; cbn [Game_player Game_game_state Game_coins
    Game_enemies Game_platforms Game_score].
  repeat match goal with |- _ /\ _ => split end;
    try discriminate; try (vm_compute; congruence); try apply Forall_nil.
  left. repeat split.
Qed.

Lemma Game_inv_running (g : Game) (b : bool) :
  Game_inv g -> Game_inv (Game_set_running g b).
Proof. intros H. exact H. Qed.

Lemma Game_inv_new_game (g : Game) : Game_inv (Game_new_game g).
Proof.
  destruct (Game_new_game_fields g) as (P & S & Sc & Lv & _ & E & C & Pl & _).
  destruct (create_level_in_screen (Game_level g)) as [He Hc].
  unfold Game_inv. rewrite P, S, Sc, Lv, E, C, Pl.
  repeat match goal with |- _ /\ _ => split end;
    try discriminate; try assumption; try (vm_compute; congruence).
  right. split; [discriminate|]. rewrite length_map. lia.
Qed.

Lemma Game_inv_jump (g : Game) : Game_inv g -> Game_inv (Player_jump g).
Proof.
  destruct (Player_jump_fields g) as (R & L & S & Sc & C & E & P & Lv & _).
  unfold Game_inv. rewrite R, L, S, Sc, C, E, P, Lv. intros H. exact H.
Qed.

Lemma Game_inv_menu (g : Game) :
  Game_game_state g = GAME_OVER \/ Game_game_state g = WIN ->
  Game_inv g -> Game_inv (Game_set_game_state g MENU).
Proof.
  intros Hs (H0 & _ & _ & _ & Hh & He & Hc & Hsc). unfold Game_inv.
  cbn [Game_set_game_state Game_player Game_game_state Game_coins Game_enemies
       Game_platforms Game_score Game_level].
  repeat match goal with |- _ /\ _ => split end;
    try discriminate; try assumption.
  destruct Hsc as [(_ & Hm & _) | Hsc]; [destruct Hs; congruence | right; exact Hsc].
Qed.

Lemma events_view_refl (g : Game) : events_view g g.
Proof. left. split; [reflexivity | left; reflexivity]. Qed.

Lemma Game_handle_event_inv (g g0 : Game) (e : Event) :
  Game_inv g0 -> events_view g g0 ->
  Game_inv (Game_handle_event g0 e) /\ events_view g (Game_handle_event g0 e).
Proof.
  intros Hinv Hv. unfold Game_handle_event.
  destruct e as [|k|]; [split; assumption| |split; assumption].
  set (g1 := match k with K_ESCAPE => Game_set_running g0 false | _ => g0 end).
  assert (Game_inv g1 /\ events_view g g1) as [Hinv1 Hv1]
    by (subst g1; destruct k; split; assumption).
  clearbody g1. clear Hinv Hv g0.
  destruct (Game_game_state g1) eqn:Hs.
  - (* MENU *)
    destruct k; try (split; assumption).
    split; [apply Game_inv_new_game|].
    destruct (Game_new_game_fields g1) as (P & S & _).
    right. rewrite P, S. split; reflexivity.
  - (* PLAYING *)
    assert (Game_inv (Player_jump g1) /\ events_view g (Player_jump g1)) as Hj.
    { split; [apply Game_inv_jump; assumption|].
      destruct (Player_jump_fields g1) as (_ & L & S & _).
      unfold events_view. rewrite L, S. exact Hv1. }
    destruct k; try (split; assumption); exact Hj.
  - (* GAME_OVER *)
    destruct k; try (split; assumption).
    split; [apply Game_inv_menu; auto|].
    unfold events_view in *.
    cbn [Game_set_game_state Game_player Game_game_state].
    destruct Hv1 as [[L [S | [S _]]] | [_ S]]; try congruence.
    left. split; [exact L|]. right. split; [reflexivity|]. left. congruence.
  - (* WIN *)
    destruct k; try (split; assumption).
    split; [apply Game_inv_menu; auto|].
    unfold events_view in *.
    cbn [Game_set_game_state Game_player Game_game_state].
    destruct Hv1 as [[L [S | [S _]]] | [_ S]]; try congruence.
    left. split; [exact L|]. right. split; [reflexivity|]. right. congruence.
Qed.

Lemma Game_events_inv (evs : list Event) (g : Game) :
  Game_inv g ->
  Game_inv (Game_events evs g) /\ events_view g (Game_events evs g).
Proof.
  intros Hinv. unfold Game_events.
  assert (forall g0, Game_inv g0 -> events_view g g0 ->
            Game_inv (fold_left Game_handle_event evs g0)
            /\ events_view g (fold_left Game_handle_event evs g0)) as H.
  { induction evs as [|e evs IH]; intros g0 H0 Hv; cbn [fold_left];
      [split; assumption|].
    destruct (Game_handle_event_inv g g0 e H0 Hv) as [H1 Hv1].
    apply IH; assumption. }
  apply H; [assumption | apply events_view_refl].
Qed.

Lemma Game_update_inv (keys : Pressed) (g : Game) :
  Game_inv g -> Game_game_state g = PLAYING -> Game_inv (Game_update keys g).
Proof.
  intros (H0 & Hp & _ & _ & Hh & He & Hc & Hsc) Hs.
  specialize (Hp Hs).
  destruct (Game_update_summary keys g Hh He Hc)
    as (_ & L & S & C & Sc & Hlen & E & P & Lv & _ & R & Hc').
  cbv zeta in L, S.
  unfold Game_inv. rewrite L, S, C, Sc, E, P, Lv, R. rewrite C in Hc'.
  rewrite Hs.
  set (g2 := Game_update_landing (Game_update_sprites keys g)) in *.
  destruct (fell keys g || enemy_caught keys g);
    cbn [andb];
    [destruct (Z.leb_spec (Player_lives (Game_player g) - 1) 0)|];
    destruct (negb (is_empty (coin_hits g2)) && is_empty (coins_left g2)) eqn:W;
    repeat split; try discriminate; try assumption; try lia;
    try (apply Enemy_update_in_screen; assumption);
    try (intros _; apply andb_prop in W; destruct W as [_ W];
         apply is_empty_nil in W; exact W);
    try (right; split;
         [destruct (Game_platforms g);
          [destruct Hsc as [(_ & ? & _) | [? _]]; congruence | discriminate]
         | destruct Hsc as [(_ & ? & _) | [_ Hsc]]; [congruence | lia]]).
Qed.

Lemma Game_run_iteration_inv (evs : list Event) (keys : Pressed) (g : Game) :
  Game_inv g -> Game_inv (Game_run_iteration evs keys g).
Proof.
  intros Hinv.
  destruct (Game_events_inv evs g Hinv) as [He _].
  destruct (Game_run_iteration_cases evs keys g) as [[Hs ->] | [_ ->]];
    [apply Game_update_inv|]; assumption.
Qed.

Lemma reachable_inv (g : Game) : reachable g -> Game_inv g.
Proof.
  intros H. induction H as [|g evs keys _ IH _].
  - apply Game_inv_init.
  - apply Game_run_iteration_inv; assumption.
Qed.

(** ** Coins and score *)

Lemma Game_update_score (keys : Pressed) (g : Game) :
  let g2 := Game_update_landing (Game_update_sprites keys g) in
  Game_score (Game_update keys g)
  = Game_score g + 10 * Z.of_nat (length (coin_hits g2))
  /\ Game_coins (Game_update keys g) = coins_left g2
  /\ Game_coins g2 = Game_coins g.
Proof.
  cbv zeta. rewrite Game_update_eq.
  destruct (Game_update_sprites_summary keys g) as (_ & _ & _ & Sc1 & C1 & _).
  revert Sc1 C1. generalize (Game_update_sprites keys g). intros g1 Sc1 C1.
  destruct (Game_update_landing_fields g1) as (_ & _ & _ & Sc2 & C2 & _).
  revert Sc2 C2. generalize (Game_update_landing g1). intros g2 Sc2 C2.
  destruct (Game_update_coins_fields g2) as (_ & C3 & Sc3 & _).
  revert C3 Sc3. generalize (Game_update_coins g2). intros g3 C3 Sc3.
  destruct (Game_update_enemies_fields g3) as (_ & _ & _ & _ & Sc4 & C4 & _).
  rewrite Sc4, C4, Sc3, C3, Sc2, C2, Sc1, C1. repeat split.
Qed.

(** Events leave a game that is being played in that state, with its score,
    coins and lives. *)
Lemma Game_events_playing (evs : list Event) (g : Game) :
  Game_game_state g = PLAYING ->
  let ge := Game_events evs g in
  Game_game_state ge = PLAYING
  /\ Game_score ge = Game_score g
  /\ Game_coins ge = Game_coins g
  /\ Player_lives (Game_player ge) = Player_lives (Game_player g).
Proof.
  unfold Game_events. revert g.
  induction evs as [|e evs IH]; intros g Hs; cbn [fold_left]; [repeat split; assumption|].
  assert (Game_game_state (Game_handle_event g e) = PLAYING
          /\ Game_score (Game_handle_event g e) = Game_score g
          /\ Game_coins (Game_handle_event g e) = Game_coins g
          /\ Player_lives (Game_player (Game_handle_event g e))
             = Player_lives (Game_player g)) as (S & Sc & C & L).
  { destruct (Player_jump_fields g) as (_ & L & S & Sc & C & _).
    unfold Game_handle_event.
    destruct e as [|k|]; [repeat split; assumption| |repeat split; assumption].
    destruct k; cbn [Game_set_running Game_game_state]; rewrite Hs;
      try (repeat split; assumption);
      rewrite ?L, ?S, ?Sc, ?C; repeat split; assumption. }
  destruct (IH (Game_handle_event g e) S) as (S' & Sc' & C' & L').
  cbv zeta in *. rewrite S', Sc', C', L', Sc, C, L. repeat split.
Qed.

(** C8. A tick adds to the score 10 for each coin its collision phase
    removes, so the score never decreases while the game is played. The coins
    collected are exactly the coins of the group whose rectangle collides with
    the player's, and the coins kept are exactly the others: every coin that
    overlaps the player is removed, no other coin is, and a removed coin is
    not in the group afterwards, so it is collected once. After a tick the
    group holds exactly the coins it held before that do not overlap the
    player as the landing phase left it. In every reachable state of a started
    game the score is 10 times the number of coins of the level that are no
    longer in the group: 10 times the level's coin count once the group is
    empty. *)
Theorem score_counts_coins :
  (forall keys g,
     let g2 := Game_update_landing (Game_update_sprites keys g) in
     Game_score (Game_update keys g)
     = Game_score g + 10 * Z.of_nat (length (coin_hits g2))
     /\ Game_coins (Game_update keys g) = coins_left g2
     /\ Game_score g <= Game_score (Game_update keys g))
  /\ (forall g c,
        (In c (Game_coins g) <-> In c (coin_hits g) \/ In c (coins_left g))
        /\ (In c (coin_hits g) ->
            Rect.colliderect (Player_rect (Game_player g)) (Coin_rect c) = true
            /\ ~ In c (coins_left g))
        /\ (In c (coin_hits g) <->
            In c (Game_coins g)
            /\ Rect.colliderect (Player_rect (Game_player g)) (Coin_rect c) = true)
        /\ (In c (coins_left g) <->
            In c (Game_coins g)
            /\ Rect.colliderect (Player_rect (Game_player g)) (Coin_rect c) = false)
        /\ (length (coin_hits g) + length (coins_left g) = length (Game_coins g))%nat)
  /\ (forall keys g c,
        let g2 := Game_update_landing (Game_update_sprites keys g) in
        Game_coins g2 = Game_coins g
        /\ (In c (Game_coins (Game_update keys g)) <->
            In c (Game_coins g)
            /\ Rect.colliderect (Player_rect (Game_player g2)) (Coin_rect c) = false)
        /\ (In c (Game_coins g) ->
            Rect.colliderect (Player_rect (Game_player g2)) (Coin_rect c) = true ->
            In c (coin_hits g2) /\ ~ In c (Game_coins (Game_update keys g))))
  /\ (forall evs keys g,
        Game_game_state g = PLAYING ->
        Game_score g <= Game_score (Game_run_iteration evs keys g))
  /\ (forall g,
        reachable g -> Game_platforms g <> [] ->
        Game_score g
        = 10 * (Z.of_nat (length (coin_list (Game_level g)))
                - Z.of_nat (length (Game_coins g)))
        /\ (Game_coins g = [] ->
            Game_score g = 10 * Z.of_nat (length (coin_list (Game_level g)))))
  /\ length (Game_coins (Game_new_game Game_init)) = 5%nat.
Proof.
  split; [|split; [|split; [|split; [|split]]]].
  - intros keys g. destruct (Game_update_score keys g) as (Sc & C & _).
    cbv zeta. rewrite Sc, C. repeat split. lia.
  - intros g c. unfold coin_hits, coins_left, spritecollide. cbn [fst snd].
    split; [|split; [|split; [|split]]].
    + rewrite !filter_In.
      destruct (Rect.colliderect (Player_rect (Game_player g)) (Coin_rect c));
        cbn [negb]; intuition congruence.
    + rewrite !filter_In. intros [_ H]. split; [exact H|].
      intros [_ H']. rewrite H in H'. discriminate.
    + rewrite filter_In. reflexivity.
    + rewrite filter_In.
      destruct (Rect.colliderect (Player_rect (Game_player g)) (Coin_rect c));
        cbn [negb]; intuition congruence.
    + apply filter_split_length.
  - intros keys g c. destruct (Game_update_score keys g) as (_ & C & C2).
    cbv zeta in *. rewrite C. revert C2.
    generalize (Game_update_landing (Game_update_sprites keys g)). intros g2 C2.
    unfold coin_hits, coins_left, spritecollide. cbn [fst snd].
    rewrite !filter_In, C2.
    destruct (Rect.colliderect (Player_rect (Game_player g2)) (Coin_rect c));
      cbn [negb]; intuition congruence.
  - intros evs keys g Hs.
    destruct (Game_events_playing evs g Hs) as (S & Sc & _).
    destruct (Game_run_iteration_cases evs keys g) as [[_ ->] | [H _]];
      [|congruence].
    destruct (Game_update_score keys (Game_events evs g)) as (Sc' & _).
    rewrite Sc', Sc. lia.
  - intros g Hr Hp.
    destruct (reachable_inv g Hr) as (_ & _ & _ & _ & _ & _ & _ & Hsc).
    destruct Hsc as [(H & _) | (_ & Hsc)]; [congruence|].
    split; [lia|]. intros Hc. rewrite Hc in Hsc. cbn [length] in Hsc. lia.
  - vm_compute. reflexivity.
Qed.

(** ** Lives and the end of the game *)

(** C2. In every reachable state the lives counter is not negative. The
    state becomes GAME_OVER in an iteration of the loop exactly when the
    lives counter goes from 1 to 0 in it, and it then went through the death
    procedure once: in a reachable state the fall below the screen and an
    enemy collision never happen in the same tick, because no enemy reaches
    below the bottom edge. *)
Theorem lives_never_negative (g : Game) :
  reachable g ->
  0 <= Player_lives (Game_player g)
  /\ (forall evs keys,
        let ge := Game_events evs g in
        let g' := Game_run_iteration evs keys g in
        ((Game_game_state g <> GAME_OVER /\ Game_game_state g' = GAME_OVER)
         <-> (Player_lives (Game_player g) = 1 /\ Player_lives (Game_player g') = 0))
        /\ (Game_game_state ge = PLAYING ->
            (fell keys ge = true -> enemy_caught keys ge = false)
            /\ Player_lives (Game_player g')
               = (if fell keys ge || enemy_caught keys ge
                  then Player_lives (Game_player ge) - 1
                  else Player_lives (Game_player ge))
            /\ (Game_game_state g' = GAME_OVER <->
                (fell keys ge || enemy_caught keys ge = true
                 /\ Player_lives (Game_player ge) = 1)))
        /\ 0 <= Player_lives (Game_player g')).
Proof.
  intros Hr. pose proof (reachable_inv g Hr) as Hinv.
  split; [apply Hinv|]. intros evs keys. cbv zeta.
  destruct (Game_events_inv evs g Hinv) as [Hie Hv].
  pose proof (Game_run_iteration_inv evs keys g Hinv) as Hinv'.
  destruct Hinv as (H0 & Hp & Hgo & _).
  destruct Hinv' as (H0' & _).
  assert (Game_game_state (Game_events evs g) = PLAYING ->
          (fell keys (Game_events evs g) = true ->
           enemy_caught keys (Game_events evs g) = false)
          /\ Player_lives (Game_player (Game_update keys (Game_events evs g)))
             = (if fell keys (Game_events evs g) || enemy_caught keys (Game_events evs g)
                then Player_lives (Game_player (Game_events evs g)) - 1
                else Player_lives (Game_player (Game_events evs g)))
          /\ (Game_game_state (Game_update keys (Game_events evs g)) = GAME_OVER <->
              (fell keys (Game_events evs g) || enemy_caught keys (Game_events evs g) = true
               /\ Player_lives (Game_player (Game_events evs g)) = 1))) as Htick.
  { intros Hs. destruct Hie as (_ & Hpe & _ & _ & Hh & He & Hc & _).
    specialize (Hpe Hs).
    destruct (Game_update_summary keys (Game_events evs g) Hh He Hc)
      as (Hb & L & S & _).
    cbv zeta in Hb, L, S.
    split; [intros F; apply (Hb F)|]. split; [exact L|].
    rewrite S, Hs.
    destruct (fell keys (Game_events evs g) || enemy_caught keys (Game_events evs g));
      cbn [andb].
    - destruct (Z.leb_spec (Player_lives (Game_player (Game_events evs g)) - 1) 0).
      + split; [intros _; split; [reflexivity | lia] | reflexivity].
      + destruct (negb _ && _); split; try discriminate; intros [_ ?]; lia.
    - destruct (negb _ && _); split; try discriminate; intros [? _]; discriminate. }
  destruct (Game_run_iteration_cases evs keys g) as [[Hs E] | [Hs E]]; rewrite E.
  - specialize (Htick Hs). destruct Htick as (Hb & L & S).
    split; [|split; [intros _; exact (conj Hb (conj L S)) | rewrite <- E; exact H0']].
    rewrite S, L.
    destruct Hv as [[Lv [Sv | [Sv _]]] | [Lv _]]; try congruence.
    + rewrite Lv.
      destruct (fell keys (Game_events evs g) || enemy_caught keys (Game_events evs g)).
      * split; [intros [_ [_ H]]; split; [exact H | lia]
               | intros [H _]; split; [intros Hg; specialize (Hgo Hg); lia
                                      | split; [reflexivity | exact H]]].
      * split; [intros [_ [H _]]; discriminate | intros [H1 H2]; lia].
    + rewrite Lv.
      destruct (fell keys (Game_events evs g) || enemy_caught keys (Game_events evs g)).
      * split; [intros [_ [_ H]]; lia | intros [H1 H2]; lia].
      * split; [intros [_ [H _]]; discriminate | intros [H1 H2]; lia].
  - split; [|split; [intros; congruence | rewrite <- E; exact H0']].
    destruct Hv as [[Lv [Sv | [Sv _]]] | [Lv Sv]]; try congruence.
    + rewrite Lv, Sv. split; [intros [H1 H2]; congruence | intros [H1 H2]; lia].
    + rewrite Lv, Sv. split; [intros [_ H]; discriminate | intros [H1 H2]; lia].
Qed.

Lemma lives_never_negative_witness :
  reachable (Game_run_iteration [KEYDOWN K_RETURN] no_keys Game_init)
  /\ 0 <= Player_lives
            (Game_player (Game_run_iteration [KEYDOWN K_RETURN] no_keys Game_init)).
Proof.
  assert (reachable (Game_run_iteration [KEYDOWN K_RETURN] no_keys Game_init)) as H
    by (apply reachable_step; [apply reachable_init | reflexivity]).
  split; [exact H|].
  exact (proj1 (lives_never_negative _ H)).
Defined.

(** * Further properties of the simulation core *)

(** ** The last life *)

(** X1. When the decremented lives counter is not above zero the death
    procedure only plays the death sound, stores the new lives and sets the
    state to GAME_OVER: the player is not moved back to the start, and its
    velocity, the score and the three groups stay as they were. *)
Theorem player_die_last_life (g : Game) :
  Player_lives (Game_player g) - 1 <= 0 ->
  Game_player_die g
  = mkGame (Game_running g) GAME_OVER (Game_score g) (Game_level g)
      (Game_platforms g) (Game_enemies g) (Game_coins g)
      (Player_set_lives (Game_player g) (Player_lives (Game_player g) - 1))
      (death_sound :: Game_played g).
Proof.
  intros Hl. unfold Game_player_die.
  cbn [play Game_set_player Game_player Player_set_lives Player_lives].
  destruct (Z.leb_spec (Player_lives (Game_player g) - 1) 0) as [_ | H]; [|lia].
  reflexivity.
Qed.

Lemma player_die_last_life_witness :
  Game_game_state
    (Game_player_die
       (Game_set_player (Game_new_game Game_init) (Player_set_lives Player_init 1)))
  = GAME_OVER.
Proof.
  rewrite (player_die_last_life
             (Game_set_player (Game_new_game Game_init) (Player_set_lives Player_init 1)));
    [reflexivity | vm_compute; discriminate].
Defined.

(** ** Jumping twice *)

(** X2. A second jump request right after a first one changes nothing:
    either the first was honoured and set the flag that refuses the second,
    or it was refused and the second is refused for the same reason. *)
Theorem no_double_jump (g : Game) :
  Player_jump (Player_jump g) = Player_jump g.
Proof.
  rewrite (Player_jump_unfold g).
  destruct (negb (is_empty (ground_probe g)) && negb (Player_jumping (Game_player g)))
    eqn:E.
  - apply jump_noop. reflexivity.
  - rewrite Player_jump_unfold, E. reflexivity.
Qed.

(** ** The event dispatch *)

Definition is_return (e : Event) : bool :=
  match e with KEYDOWN K_RETURN => true | _ => false end.

Definition is_quit (e : Event) : bool :=
  match e with QUIT | KEYDOWN K_ESCAPE => true | _ => false end.

Lemma Game_handle_event_fields (g : Game) (e : Event) :
  let g' := Game_handle_event g e in
  Game_running g' = Game_running g && negb (is_quit e)
  /\ Game_level g' = Game_level g
  /\ Game_game_state g'
     = (if is_return e then
          match Game_game_state g with
          | MENU => PLAYING
          | PLAYING => PLAYING
          | GAME_OVER | WIN => MENU
          end
        else Game_game_state g).
Proof.
  destruct (Player_jump_fields g) as (_ & _ & Sj & _ & _ & _ & _ & Lj & Rj).
  destruct (Player_jump_fields (Game_set_running g false))
    as (_ & _ & Sj' & _ & _ & _ & _ & Lj' & Rj').
  destruct (Game_new_game_fields g) as (_ & Sn & _ & Ln & Rn & _).
  destruct (Game_new_game_fields (Game_set_running g false)) as (_ & Sn' & _ & Ln' & Rn' & _).
  unfold Game_handle_event.
  destruct e as [|k|]; cbn [is_quit is_return negb];
    [rewrite andb_false_r; repeat split | | rewrite andb_true_r; repeat split].
  destruct k; cbn [is_quit is_return negb Game_set_running Game_game_state];
    rewrite ?andb_false_r, ?andb_true_r;
    destruct (Game_game_state g) eqn:Hs;
    rewrite ?Sj, ?Lj, ?Rj, ?Sn, ?Ln, ?Rn;
    repeat split; try assumption; try reflexivity.
Qed.

Lemma Game_events_fields (evs : list Event) (g : Game) :
  let g' := Game_events evs g in
  Game_running g' = Game_running g && negb (existsb is_quit evs)
  /\ Game_level g' = Game_level g
  /\ (existsb is_return evs = false -> Game_game_state g' = Game_game_state g)
  /\ (Game_game_state g' = GAME_OVER -> Game_game_state g = GAME_OVER)
  /\ (Game_game_state g' = WIN -> Game_game_state g = WIN).
Proof.
  unfold Game_events. revert g.
  induction evs as [|e evs IH]; intros g; cbn [fold_left existsb].
  - rewrite andb_true_r. repeat split; auto.
  - destruct (IH (Game_handle_event g e)) as (R & L & S & Sg & Sw).
    destruct (Game_handle_event_fields g e) as (R0 & L0 & S0).
    cbv zeta in *. rewrite R, L, R0, L0.
    split; [|split; [reflexivity|split; [|split]]].
    + rewrite negb_orb, andb_assoc. reflexivity.
    + intros H. apply orb_false_elim in H. destruct H as [H1 H2].
      rewrite (S H2), S0, H1. reflexivity.
    + intros H. specialize (Sg H). rewrite S0 in Sg.
      destruct (is_return e), (Game_game_state g); congruence.
    + intros H. specialize (Sw H). rewrite S0 in Sw.
      destruct (is_return e), (Game_game_state g); congruence.
Qed.

(** X3. The events of a tick never put the game into GAME_OVER or WIN (only
    the update does); they change the state on a RETURN key only, from the
    menu to a played game and from a finished game to the menu; they never
    change the level; and the running flag after them is the flag before,
    cleared if a QUIT or an ESCAPE key was among them: nothing sets it again. *)
Theorem events_transitions (evs : list Event) (g : Game) :
  let g' := Game_events evs g in
  Game_running g' = Game_running g && negb (existsb is_quit evs)
  /\ Game_level g' = Game_level g
  /\ (existsb is_return evs = false -> Game_game_state g' = Game_game_state g)
  /\ (Game_game_state g' = GAME_OVER -> Game_game_state g = GAME_OVER)
  /\ (Game_game_state g' = WIN -> Game_game_state g = WIN)
  /\ (forall e,
        Game_game_state (Game_handle_event g e)
        = (if is_return e then
             match Game_game_state g with
             | MENU => PLAYING
             | PLAYING => PLAYING
             | GAME_OVER | WIN => MENU
             end
           else Game_game_state g)).
Proof.
  destruct (Game_events_fields evs g) as (R & L & S & Sg & Sw).
  repeat split; try assumption.
  intros e. apply (Game_handle_event_fields g e).
Qed.

(** ** Outside a played game, and quitting *)

Lemma Game_set_running_same (g : Game) : Game_set_running g (Game_running g) = g.
Proof. destruct g; reflexivity. Qed.

Lemma Game_handle_event_frozen (g : Game) (e : Event) :
  Game_game_state g <> PLAYING -> is_return e = false ->
  Game_handle_event g e = Game_set_running g (Game_running g && negb (is_quit e)).
Proof.
  intros Hs Hr. unfold Game_handle_event.
  destruct e as [|k|]; cbn [is_quit negb].
  - rewrite andb_false_r. reflexivity.
  - destruct k; try discriminate Hr;
      cbn [is_quit negb Game_set_running Game_game_state];
      rewrite ?andb_false_r, ?andb_true_r, ?Game_set_running_same;
      destruct (Game_game_state g); try congruence; reflexivity.
  - rewrite andb_true_r, Game_set_running_same. reflexivity.
Qed.

Lemma Game_events_frozen (evs : list Event) (g : Game) :
  Game_game_state g <> PLAYING -> existsb is_return evs = false ->
  Game_events evs g
  = Game_set_running g (Game_running g && negb (existsb is_quit evs)).
Proof.
  unfold Game_events. revert g.
  induction evs as [|e evs IH]; intros g Hs Hr; cbn [fold_left existsb] in *.
  - rewrite andb_true_r, Game_set_running_same. reflexivity.
  - apply orb_false_elim in Hr. destruct Hr as [Hr1 Hr2].
    rewrite (Game_handle_event_frozen g e Hs Hr1).
    rewrite IH; [|exact Hs|exact Hr2].
    cbn [Game_set_running Game_running].
    rewrite negb_orb, andb_assoc. reflexivity.
Qed.

(** X4. While the game is not being played (menu, game over, win), an
    iteration of the main loop whose events hold no RETURN key changes
    nothing but the running flag, whatever keys are held: no sprite moves,
    no collision is tested, no sound is played. *)
Theorem frozen_outside_play (evs : list Event) (keys : Pressed) (g : Game) :
  Game_game_state g <> PLAYING -> existsb is_return evs = false ->
  Game_run_iteration evs keys g
  = Game_set_running g (Game_running g && negb (existsb is_quit evs)).
Proof.
  intros Hs Hr.
  destruct (Game_run_iteration_cases evs keys g) as [[H _] | [_ ->]].
  - rewrite (Game_events_frozen evs g Hs Hr) in H. cbn [Game_set_running Game_game_state] in H.
    congruence.
  - apply Game_events_frozen; assumption.
Qed.

Lemma frozen_outside_play_witness :
  Game_run_iteration [KEYDOWN K_SPACE; KEYDOWN K_LEFT]
    (fun k => match k with K_RIGHT => true | _ => false end) Game_init
  = Game_init.
Proof.
  rewrite (frozen_outside_play [KEYDOWN K_SPACE; KEYDOWN K_LEFT]
             (fun k => match k with K_RIGHT => true | _ => false end) Game_init);
    [reflexivity | discriminate | reflexivity].
Defined.

(** What a tick leaves alone, whatever the state it starts from. *)
Lemma Game_update_frame (keys : Pressed) (g : Game) :
  Game_enemies (Game_update keys g) = map Enemy_update (Game_enemies g)
  /\ Game_platforms (Game_update keys g) = map Platform_update (Game_platforms g)
  /\ Game_level (Game_update keys g) = Game_level g
  /\ Game_running (Game_update keys g) = Game_running g.
Proof.
  rewrite Game_update_eq.
  destruct (Game_update_sprites_summary keys g) as (_ & _ & _ & _ & _ & E1 & P1 & L1 & R1).
  revert E1 P1 L1 R1. generalize (Game_update_sprites keys g). intros g1 E1 P1 L1 R1.
  destruct (Game_update_landing_fields g1) as (_ & _ & _ & _ & _ & E2 & P2 & L2 & R2 & _).
  revert E2 P2 L2 R2. generalize (Game_update_landing g1). intros g2 E2 P2 L2 R2.
  destruct (Game_update_coins_fields g2) as (_ & _ & _ & _ & E3 & P3 & L3 & R3 & _).
  revert E3 P3 L3 R3. generalize (Game_update_coins g2). intros g3 E3 P3 L3 R3.
  destruct (Game_update_enemies_fields g3) as (_ & _ & _ & _ & _ & _ & E4 & P4 & L4 & R4).
  rewrite E4, P4, L4, R4, E3, P3, L3, R3, E2, P2, L2, R2, E1, P1, L1, R1.
  repeat split.
Qed.

Lemma Game_run_iteration_running (evs : list Event) (keys : Pressed) (g : Game) :
  Game_running (Game_run_iteration evs keys g)
  = Game_running g && negb (existsb is_quit evs).
Proof.
  destruct (Game_events_fields evs g) as (R & _).
  destruct (Game_run_iteration_cases evs keys g) as [[_ ->] | [_ ->]]; [|exact R].
  destruct (Game_update_frame keys (Game_events evs g)) as (_ & _ & _ & R').
  rewrite R'. exact R.
Qed.

Lemma Game_run_stopped (inputs : list (list Event * Pressed)) (g : Game) :
  Game_running g = false -> Game_run inputs g = g.
Proof.
  intros H. destruct inputs as [|[evs keys] rest]; cbn [Game_run]; [reflexivity|].
  rewrite H. reflexivity.
Qed.

(** X5. A QUIT event or an ESCAPE key ends the loop with the iteration it
    arrives in: that iteration is still carried out in full (the remaining
    events and, in a played game, the update), and no later input is read.
    Runs compose: running on two input sequences, one after the other, is
    running on their concatenation. *)
Theorem quit_ends_the_loop :
  (forall evs keys rest g,
     Game_running g = true -> existsb is_quit evs = true ->
     Game_run ((evs, keys) :: rest) g = Game_run_iteration evs keys g)
  /\ (forall inputs g, Game_running g = false -> Game_run inputs g = g)
  /\ (forall inputs1 inputs2 g,
        Game_run (inputs1 ++ inputs2) g = Game_run inputs2 (Game_run inputs1 g)).
Proof.
  split; [|split].
  - intros evs keys rest g Hr Hq. cbn [Game_run]. rewrite Hr.
    apply Game_run_stopped.
    rewrite Game_run_iteration_running, Hr, Hq. reflexivity.
  - apply Game_run_stopped.
  - intros inputs1. induction inputs1 as [|[evs keys] rest IH]; intros inputs2 g.
    + reflexivity.
    + cbn [app Game_run]. destruct (Game_running g) eqn:Hr.
      * apply IH.
      * symmetry. apply Game_run_stopped. exact Hr.
Qed.

(** ** More invariants of the reachable states *)

(** The coins [create_level] builds for a level. *)
Definition level_coins (level : Z) : list Coin :=
  map (fun c => match c with (x, y) => Coin_init x y end) (coin_list level).

Lemma filter_twice {A : Type} (f k : A -> bool) (l : list A) :
  filter f (filter k l) = filter (fun a => k a && f a) l.
Proof.
  induction l as [|a l IH]; simpl; [reflexivity|].
  destruct (k a); simpl; [destruct (f a)|]; rewrite IH; reflexivity.
Qed.

Lemma filter_all {A : Type} (l : list A) : filter (fun _ => true) l = l.
Proof. induction l as [|a l IH]; simpl; [|rewrite IH]; reflexivity. Qed.

(** The collision phase never moves the rectangle: after a tick it is where
    the motion update put it. *)
Lemma Game_update_rect (keys : Pressed) (g : Game) :
  Player_rect (Game_player (Game_update keys g))
  = Player_rect (Player_moved keys (Game_player g)).
Proof.
  rewrite Game_update_eq.
  destruct (Game_update_sprites_summary keys g) as (R1 & _).
  revert R1. generalize (Game_update_sprites keys g). intros g1 R1.
  destruct (Game_update_landing_fields g1) as (R2 & _).
  revert R2. generalize (Game_update_landing g1). intros g2 R2.
  destruct (Game_update_coins_fields g2) as (P3 & _).
  revert P3. generalize (Game_update_coins g2). intros g3 P3.
  destruct (Game_update_enemies_fields g3) as (R4 & _).
  rewrite R4, P3, R2, R1. reflexivity.
Qed.

Definition Game_inv_ext (g : Game) : Prop :=
  Game_level g = 1
  /\ Player_lives (Game_player g) <= 3
  /\ (Game_game_state g = PLAYING -> Game_coins g <> [])
  /\ (Game_game_state g = WIN -> 1 <= Player_lives (Game_player g))
  /\ (Game_game_state g <> MENU -> Game_platforms g <> [])
  /\ (exists keep, Game_coins g = filter keep (level_coins 1))
  /\ (Game_platforms g = []
      \/ (length (Game_platforms g) = 7%nat /\ length (Game_enemies g) = 2%nat))
  /\ Rect.w (Player_rect (Game_player g)) = 30
  /\ Rect.h (Player_rect (Game_player g)) = 40.

Lemma Game_inv_ext_init : Game_inv_ext Game_init.
Proof.
  unfold Game_inv_ext, Game_init.
  cbn [Game_level Game_player Game_game_state Game_coins Game_platforms Game_enemies].
  repeat match goal with |- _ /\ _ => split end;
    try discriminate; try congruence; try (vm_compute; congruence).
  - exists (fun _ => false). reflexivity.
  - left. reflexivity.
Qed.

Lemma Game_inv_ext_new_game (g : Game) :
  Game_level g = 1 -> Game_inv_ext (Game_new_game g).
Proof.
  intros Hl.
  destruct (Game_new_game_fields g) as (P & S & _ & Lv & _ & E & C & Pl & _).
  unfold Game_inv_ext. rewrite P, S, Lv, E, C, Pl, Hl.
  repeat match goal with |- _ /\ _ => split end;
    try discriminate; try reflexivity; try (vm_compute; congruence).
  - exists (fun _ => true). rewrite filter_all. reflexivity.
  - right. split; reflexivity.
Qed.

Lemma Game_handle_event_ext (g : Game) (e : Event) :
  Game_inv_ext g -> Game_inv_ext (Game_handle_event g e).
Proof.
  intros Hx.
  assert (forall b, Game_inv_ext (Game_set_running g b)) as Hrun by (intros b; exact Hx).
  assert (forall g0, Game_inv_ext g0 -> Game_inv_ext (Player_jump g0)) as Hjump.
  { intros g0 H0.
    destruct (Player_jump_fields g0) as (R & L & S & _ & C & E & P & Lv & _).
    unfold Game_inv_ext. rewrite R, L, S, C, E, P, Lv. exact H0. }
  assert (forall g0, Game_inv_ext g0 -> Game_game_state g0 <> MENU ->
            Game_inv_ext (Game_set_game_state g0 MENU)) as Hmenu.
  { intros g0 (Lv & L & _ & _ & Hp & C & N & W & H) Hs. unfold Game_inv_ext.
    cbn [Game_set_game_state Game_level Game_player Game_game_state Game_coins
         Game_platforms Game_enemies].
    repeat match goal with |- _ /\ _ => split end;
      try discriminate; try congruence; assumption. }
  assert (forall g0, Game_inv_ext g0 -> Game_inv_ext (Game_new_game g0)) as Hnew
    by (intros g0 H0; apply Game_inv_ext_new_game; apply H0).
  unfold Game_handle_event.
  destruct e as [|k|]; [apply Hrun | | exact Hx].
  set (g1 := match k with K_ESCAPE => Game_set_running g false | _ => g end).
  assert (Game_inv_ext g1) as H1 by (subst g1; destruct k; auto).
  clearbody g1.
  destruct (Game_game_state g1) eqn:Hs; destruct k; auto;
    apply Hmenu; auto; congruence.
Qed.

Lemma Game_events_ext (evs : list Event) (g : Game) :
  Game_inv_ext g -> Game_inv_ext (Game_events evs g).
Proof.
  unfold Game_events. revert g.
  induction evs as [|e evs IH]; intros g H; cbn [fold_left]; [exact H|].
  apply IH. apply Game_handle_event_ext. exact H.
Qed.

Lemma Game_update_ext (keys : Pressed) (g : Game) :
  Game_inv g -> Game_inv_ext g -> Game_game_state g = PLAYING ->
  Game_inv_ext (Game_update keys g).
Proof.
  intros (H0 & Hp & _ & _ & Hh & He & Hc & _) (Lv & L3 & Hne & _ & Hpl & [keep Hk] & Hn & Hw & Hh40) Hs.
  specialize (Hp Hs). specialize (Hne Hs).
  assert (Game_platforms g <> []) as Hpne by (apply Hpl; congruence).
  destruct (Game_update_summary keys g Hh He Hc)
    as (_ & L & S & C & _ & Hlen & E & P & Lv' & _ & _ & _).
  cbv zeta in L, S.
  destruct (Game_update_score keys g) as (_ & _ & C2).
  pose proof (Game_update_rect keys g) as R.
  destruct (Player_moved_fields keys (Game_player g)) as (_ & _ & _ & Mw & Mh).
  unfold Game_inv_ext. rewrite L, S, C, E, P, Lv', R, Mw, Mh, Hs, !length_map.
  assert (exists keep', coins_left (Game_update_landing (Game_update_sprites keys g))
                        = filter keep' (level_coins 1)) as Hk'.
  { unfold coins_left, spritecollide. cbn [snd]. rewrite C2, Hk, filter_twice.
    eexists. reflexivity. }
  assert (coins_left (Game_update_landing (Game_update_sprites keys g)) = [] ->
          coin_hits (Game_update_landing (Game_update_sprites keys g)) <> []) as Hwon.
  { intros Hle Hhi. rewrite Hle, Hhi in Hlen. cbn [length] in Hlen.
    destruct (Game_coins g); [congruence | discriminate]. }
  set (g2 := Game_update_landing (Game_update_sprites keys g)) in *.
  destruct (fell keys g || enemy_caught keys g); cbn [andb];
    [destruct (Z.leb_spec (Player_lives (Game_player g) - 1) 0)|];
    destruct (negb (is_empty (coin_hits g2)) && is_empty (coins_left g2)) eqn:W;
    repeat match goal with |- _ /\ _ => split end;
    try discriminate; try assumption; try lia;
    try (intros _; destruct (Game_platforms g); [congruence | discriminate]);
    try (destruct Hn as [Hn | Hn]; [congruence | right; exact Hn]);
    try (intros _ Hle; specialize (Hwon Hle);
         apply is_empty_cons in Hwon; apply is_empty_nil in Hle;
         rewrite Hwon, Hle in W; discriminate).
Qed.

Lemma reachable_inv_ext (g : Game) : reachable g -> Game_inv_ext g.
Proof.
  intros H. induction H as [|g evs keys Hr IH _].
  - apply Game_inv_ext_init.
  - pose proof (reachable_inv g Hr) as Hinv.
    destruct (Game_events_inv evs g Hinv) as [Hie _].
    pose proof (Game_events_ext evs g IH) as Hxe.
    destruct (Game_run_iteration_cases evs keys g) as [[Hs ->] | [_ ->]];
      [apply Game_update_ext|]; assumption.
Qed.

(** X6. In every state the program can reach: the level is 1 (nothing ever
    changes it, so the second layout of [create_level] is never built); the
    lives counter is between 0 and 3; a played game has at least one life
    and at least one coin left; a game over has no life left; a won game has
    no coin left, at least one life, and the score 50; the score is always
    between 0 and 50. *)
Theorem session_invariants (g : Game) :
  reachable g ->
  let l := Player_lives (Game_player g) in
  Game_level g = 1
  /\ 0 <= l <= 3
  /\ (Game_game_state g = PLAYING -> 1 <= l /\ Game_coins g <> [])
  /\ (Game_game_state g = GAME_OVER -> l = 0)
  /\ (Game_game_state g = WIN ->
      Game_coins g = [] /\ 1 <= l /\ Game_score g = 50)
  /\ 0 <= Game_score g <= 50.
Proof.
  intros Hr.
  destruct (reachable_inv g Hr) as (H0 & Hp & Hgo & Hw & _ & _ & _ & Hsc).
  destruct (reachable_inv_ext g Hr) as (Lv & L3 & Hne & Hwl & Hpl & [keep Hk] & _).
  assert (length (Game_coins g) <= 5)%nat as Hlen.
  { rewrite Hk. apply (Nat.le_trans _ _ _ (filter_length_le keep (level_coins 1))).
    vm_compute. reflexivity. }
  assert (Game_platforms g <> [] -> Game_score g = 50 - 10 * Z.of_nat (length (Game_coins g)))
    as Hscore.
  { intros Hp0. destruct Hsc as [(H & _) | (_ & Hsc)]; [congruence|].
    rewrite Lv in Hsc. change (length (coin_list 1)) with 5%nat in Hsc. lia. }
  cbv zeta. repeat match goal with |- _ /\ _ => split end; auto.
  - intros Hs. specialize (Hw Hs). split; [exact Hw|]. split; [auto|].
    rewrite Hscore; [rewrite Hw; reflexivity | apply Hpl; congruence].
  - destruct Hsc as [(_ & _ & _ & Hz) | (Hp0 & _)]; [lia | rewrite (Hscore Hp0); lia].
  - destruct Hsc as [(_ & _ & _ & Hz) | (Hp0 & _)]; [lia | rewrite (Hscore Hp0); lia].
Qed.

Lemma session_invariants_witness :
  Game_level (Game_run_iteration [KEYDOWN K_RETURN] no_keys Game_init) = 1.
Proof.
  exact (proj1 (session_invariants _
                  (reachable_step Game_init [KEYDOWN K_RETURN] no_keys
                     reachable_init eq_refl))).
Defined.

(** X7. In every state the program can reach: the coin group is the coin
    table of level 1 with some coins removed, in the table's order, so a
    coin is never added, moved or brought back while the program runs;
    either no game was started yet or the groups hold 7 platforms (the ground
    twice) and 2 enemies; the player's rectangle is 30 wide and 40 high; and
    no enemy and no coin reaches below the bottom edge of the screen. *)
Theorem world_invariants (g : Game) :
  reachable g ->
  (exists keep, Game_coins g = filter keep (level_coins 1))
  /\ (Game_platforms g = []
      \/ (length (Game_platforms g) = 7%nat /\ length (Game_enemies g) = 2%nat))
  /\ Rect.w (Player_rect (Game_player g)) = 30
  /\ Rect.h (Player_rect (Game_player g)) = 40
  /\ Forall (fun e => in_screen (Enemy_rect e)) (Game_enemies g)
  /\ Forall (fun c => in_screen (Coin_rect c)) (Game_coins g).
Proof.
  intros Hr.
  destruct (reachable_inv g Hr) as (_ & _ & _ & _ & _ & He & Hc & _).
  destruct (reachable_inv_ext g Hr) as (_ & _ & _ & _ & _ & Hk & Hn & Hw & Hh).
  repeat split; assumption.
Qed.

Lemma world_invariants_witness :
  Rect.w (Player_rect (Game_player
            (Game_run_iteration [KEYDOWN K_RETURN] no_keys Game_init))) = 30.
Proof.
  exact (proj1 (proj2 (proj2 (world_invariants _
                  (reachable_step Game_init [KEYDOWN K_RETURN] no_keys
                     reachable_init eq_refl))))).
Defined.



(** ** Platforms and enemies during a tick *)

(** X9. A tick never adds or removes a platform or an enemy (an enemy
    cannot be killed): each group is the old one with every member updated,
    in the same order. An update changes at most the x coordinate and the
    direction of a sprite: its y coordinate, size, origin, range and speed
    stay, and a platform that is not flagged as moving is left as it is. *)
Theorem sprites_persist (keys : Pressed) (g : Game) :
  Game_enemies (Game_update keys g) = map Enemy_update (Game_enemies g)
  /\ Game_platforms (Game_update keys g) = map Platform_update (Game_platforms g)
  /\ length (Game_enemies (Game_update keys g)) = length (Game_enemies g)
  /\ length (Game_platforms (Game_update keys g)) = length (Game_platforms g)
  /\ (forall e,
        let e' := Enemy_update e in
        Rect.y (Enemy_rect e') = Rect.y (Enemy_rect e)
        /\ Rect.w (Enemy_rect e') = Rect.w (Enemy_rect e)
        /\ Rect.h (Enemy_rect e') = Rect.h (Enemy_rect e)
        /\ Enemy_start_pos e' = Enemy_start_pos e
        /\ Enemy_patrol_range e' = Enemy_patrol_range e
        /\ Enemy_speed e' = Enemy_speed e)
  /\ (forall p,
        let p' := Platform_update p in
        Rect.y (Platform_rect p') = Rect.y (Platform_rect p)
        /\ Rect.w (Platform_rect p') = Rect.w (Platform_rect p)
        /\ Rect.h (Platform_rect p') = Rect.h (Platform_rect p)
        /\ Platform_start_pos p' = Platform_start_pos p
        /\ Platform_move_range p' = Platform_move_range p
        /\ Platform_move_speed p' = Platform_move_speed p
        /\ Platform_is_moving p' = Platform_is_moving p
        /\ (Platform_is_moving p = false -> p' = p)).
Proof.
  destruct (Game_update_frame keys g) as (E & P & _).
  rewrite E, P, !length_map.
  repeat match goal with |- _ /\ _ => split end; try reflexivity.
  - intros e. unfold Enemy_update. cbn. repeat split.
  - intros p. unfold Platform_update.
    destruct (Platform_is_moving p) eqn:Hm; cbn; repeat split; congruence.
Qed.

(** ** The period of a patrol at speed 1 *)

Lemma iter_once {A : Type} (f : A -> A) (a : A) : Nat.iter 1 f a = f a.
Proof. reflexivity. Qed.

Section PatrolPeriod.

Variables start range : Z.
Hypothesis range_nonneg : 0 <= range.

(** [k] steps in direction [d] that all stay within the range. *)
Lemma patrol_straight (d : Z) (k : nat) (x : Z) :
  d = 1 \/ d = -1 ->
  (forall j, 1 <= j <= Z.of_nat k -> Z.abs (x + j * d - start) <= range) ->
  Nat.iter k (patrol_step start range 1) (x, d) = (x + Z.of_nat k * d, d).
Proof.
  intros Hd. induction k as [|k IH]; intros Hin.
  - change (Nat.iter 0 (patrol_step start range 1) (x, d)) with (x, d).
    f_equal. lia.
  - rewrite Nat.iter_succ, IH by (intros j Hj; apply Hin; lia).
    unfold patrol_step. cbn [fst snd].
    assert (Z.abs (x + Z.of_nat (S k) * d - start) <= range) as H
      by (apply Hin; lia).
    replace (x + Z.of_nat k * d + 1 * d) with (x + Z.of_nat (S k) * d) by lia.
    destruct (Z.gtb_spec (Z.abs (x + Z.of_nat (S k) * d - start)) range); [lia|].
    reflexivity.
Qed.

(** One more step, the one that leaves the range, reverses the direction. *)
Lemma patrol_turn (d x : Z) :
  d = 1 \/ d = -1 ->
  Z.abs (x + d - start) > range ->
  patrol_step start range 1 (x, d) = (x + d, - d).
Proof.
  intros Hd H. unfold patrol_step. cbn [fst snd].
  replace (x + 1 * d) with (x + d) by lia.
  destruct (Z.gtb_spec (Z.abs (x + d - start)) range); [|lia].
  f_equal. lia.
Qed.

Lemma patrol_period_steps :
  Nat.iter (4 * (Z.to_nat range + 1)) (patrol_step start range 1) (start, 1)
  = (start, 1).
Proof.
  set (r := Z.to_nat range).
  assert (Z.of_nat r = range) as Hr by (apply Z2Nat.id; exact range_nonneg).
  (* [iter_add] applies the rightmost summand first: [r] steps to the right
     and the turn, [2r+1] steps to the left and the turn, [r+1] steps back *)
  replace (4 * (r + 1))%nat with (S r + (1 + (S (r + r) + (1 + r))))%nat by lia.
  rewrite !Nat.iter_add.
  rewrite (patrol_straight 1 r start) by (try lia; intros j Hj; lia).
  rewrite (iter_once (patrol_step start range 1) (start + Z.of_nat r * 1, 1)).
  rewrite (patrol_turn 1 (start + Z.of_nat r * 1)) by lia.
  rewrite (patrol_straight (Z.opp 1) (S (r + r)) (start + Z.of_nat r * 1 + 1))
    by (try lia; intros j Hj; lia).
  rewrite (iter_once (patrol_step start range 1)).
  rewrite (patrol_turn (Z.opp 1)) by lia.
  rewrite (patrol_straight (Z.opp (Z.opp 1)) (S r)) by (try lia; intros j Hj; lia).
  f_equal; lia.
Qed.

End PatrolPeriod.

Lemma Enemy_iter_record (n : nat) (e : Enemy) :
  Nat.iter n Enemy_update e
  = let xd := Nat.iter n
                (patrol_step (Enemy_start_pos e) (Enemy_patrol_range e) (Enemy_speed e))
                (Rect.x (Enemy_rect e), Enemy_direction e) in
    mkEnemy (Rect.set_x (Enemy_rect e) (fst xd)) (Enemy_patrol_range e)
      (Enemy_speed e) (Enemy_start_pos e) (snd xd).
Proof.
  induction n as [|n IH].
  - destruct e as [[x y w h] r s st d]. reflexivity.
  - rewrite !Nat.iter_succ, IH. cbv zeta.
    generalize (Nat.iter n
                  (patrol_step (Enemy_start_pos e) (Enemy_patrol_range e) (Enemy_speed e))
                  (Rect.x (Enemy_rect e), Enemy_direction e)).
    intros [x d]. reflexivity.
Qed.

Lemma Platform_iter_record (n : nat) (p : Platform) :
  Platform_is_moving p = true ->
  Nat.iter n Platform_update p
  = let xd := Nat.iter n
                (patrol_step (Platform_start_pos p) (Platform_move_range p)
                   (Platform_move_speed p))
                (Rect.x (Platform_rect p), Platform_direction p) in
    mkPlatform (Rect.set_x (Platform_rect p) (fst xd)) true (Platform_move_range p)
      (Platform_move_speed p) (Platform_start_pos p) (snd xd).
Proof.
  intros Hm. induction n as [|n IH].
  - destruct p as [[x y w h] m r s st d]. cbn in Hm. subst m. reflexivity.
  - rewrite !Nat.iter_succ, IH. cbv zeta.
    generalize (Nat.iter n
                  (patrol_step (Platform_start_pos p) (Platform_move_range p)
                     (Platform_move_speed p))
                  (Rect.x (Platform_rect p), Platform_direction p)).
    intros [x d]. reflexivity.
Qed.

(** X10. A patrol at speed 1 is periodic: an enemy, or a moving platform,
    created with range [r >= 0] and speed 1 is back in the very state it
    was created in after 4 (r + 1) updates: r + 1 steps to the right, 2r + 2
    to the left, r + 1 to the right. (Every enemy of the levels has speed 1:
    324 ticks for a range of 80, 404 for a range of 100.) *)
Theorem patrol_period (x y r : Z) :
  0 <= r ->
  Nat.iter (4 * (Z.to_nat r + 1)) Enemy_update (Enemy_init x y r 1)
  = Enemy_init x y r 1
  /\ (forall width height,
        Nat.iter (4 * (Z.to_nat r + 1)) Platform_update
          (Platform_init x y width height true r 1)
        = Platform_init x y width height true r 1).
Proof.
  intros Hr. split.
  - rewrite Enemy_iter_record. unfold Enemy_init.
    cbn [Enemy_start_pos Enemy_patrol_range Enemy_speed Enemy_rect Enemy_direction Rect.x].
    rewrite (patrol_period_steps x r Hr). reflexivity.
  - intros width height. rewrite Platform_iter_record by reflexivity.
    unfold Platform_init.
    cbn [Platform_start_pos Platform_move_range Platform_move_speed Platform_rect
         Platform_direction Rect.x].
    rewrite (patrol_period_steps x r Hr). reflexivity.
Qed.

Lemma patrol_period_witness :
  Nat.iter 324 Enemy_update (Enemy_init 300 280 80 1) = Enemy_init 300 280 80 1.
Proof.
  apply (patrol_period 300 280 80). lia.
Defined.

(** ** Standing still *)

Lemma F64_add_zero (v : F64.float) :
  v <> S754_zero true -> F64.add v (S754_zero false) = v.
Proof.
  intros H. destruct v as [[|]|s| |s m e]; try reflexivity. congruence.
Qed.

(** X11. Without a left or right key held, a player whose horizontal
    velocity is zero keeps it zero through the motion update and stays at
    the same x (for every x but the negative zero, which no assignment of
    the program produces); the facing direction is not changed, and the
    vertical velocity still gains the gravity constant. *)
Theorem rest_is_stable (keys : Pressed) (p : Player) :
  keys K_LEFT = false -> keys K_RIGHT = false ->
  Vector2.x (Player_vel p) = F64.of_int 0 ->
  Vector2.x (Player_pos p) <> S754_zero true ->
  let q := Player_update_motion keys p in
  Vector2.x (Player_vel q) = F64.of_int 0
  /\ Vector2.x (Player_pos q) = Vector2.x (Player_pos p)
  /\ Vector2.y (Player_vel q) = F64.add (Vector2.y (Player_vel p)) PLAYER_GRAVITY
  /\ Player_facing_right q = Player_facing_right p.
Proof.
  intros Hl Hr Hv Hx. cbv zeta. rewrite Player_update_motion_eq. cbv zeta.
  unfold input_acc. rewrite Hl, Hr, Hv.
  cbn [Player_vel Player_pos Player_facing_right Vector2.x Vector2.y].
  assert (F64.add (F64.of_int 0) (F64.mul (F64.of_int 0) PLAYER_FRICTION)
          = S754_zero false) as -> by (vm_compute; reflexivity).
  assert (F64.add (F64.of_int 0) (S754_zero false) = S754_zero false) as ->
    by (vm_compute; reflexivity).
  assert (F64.ltb (F64.abs (S754_zero false)) (F64.lit 1 10) = true) as ->
    by (vm_compute; reflexivity).
  assert (F64.add (F64.of_int 0) (F64.mul (F64.lit 5 10) (S754_zero false))
          = S754_zero false) as -> by (vm_compute; reflexivity).
  rewrite (F64_add_zero _ Hx). repeat split.
Qed.

Lemma rest_is_stable_witness :
  Vector2.x (Player_pos (Player_update_motion no_keys Player_init))
  = Vector2.x (Player_pos Player_init).
Proof.
  apply (rest_is_stable no_keys Player_init);
    [reflexivity | reflexivity | reflexivity | vm_compute; discriminate].
Defined.

(** ** Building a level *)

Definition ground : Platform :=
  Platform_init 0 (SCREEN_HEIGHT - 40) SCREEN_WIDTH 40 false 0 0.

(** X12. The level builder has two layouts only: every level number other
    than 1 builds what level 2 builds. Whatever the level, a new game holds
    the ground platform twice (once created on its own, once from the
    table) followed by the other platforms, of which exactly one moves; the
    player starts with 3 lives, score 0, state PLAYING, at position
    (100, 400), while its rectangle is still centred on the screen, at
    (385, 280), until the first update. *)
Theorem level_builder (g : Game) :
  (forall level, level <> 1 -> Game_create_level g level = Game_create_level g 2)
  /\ (exists others,
        Game_platforms (Game_new_game g) = ground :: ground :: others
        /\ length (filter Platform_is_moving others) = 1%nat
        /\ Forall (fun p => Rect.bottom (Platform_rect p) < SCREEN_HEIGHT - 40) others)
  /\ Game_coins (Game_new_game g) = level_coins (Game_level g)
  /\ Game_score (Game_new_game g) = 0
  /\ Game_game_state (Game_new_game g) = PLAYING
  /\ Player_lives (Game_player (Game_new_game g)) = 3
  /\ Player_pos (Game_player (Game_new_game g))
     = Vector2.mk (F64.of_int 100) (F64.of_int 400)
  /\ Player_rect (Game_player (Game_new_game g)) = Rect.mk 385 280 30 40.
Proof.
  destruct (Game_new_game_fields g) as (P & S & Sc & _ & _ & _ & C & Pl & _).
  rewrite P, S, Sc, C, Pl.
  repeat match goal with |- _ /\ _ => split end; try reflexivity.
  - intros level Hl. unfold Game_create_level, platform_list, enemy_list, coin_list.
    destruct (Z.eqb_spec level 1) as [E | _]; [congruence|]. reflexivity.
  - unfold platform_list. destruct (Game_level g =? 1);
      (eexists; split; [reflexivity|]; split; [reflexivity|]);
      repeat (constructor; [vm_compute; reflexivity|]); constructor.
Qed.

(** X13. Starting a new game discards the previous session: the game it
    builds depends on the running flag, the level number and the sound log of
    the game it is called on, and on nothing else (not on the old score,
    lives, coins, sprites or state). *)
Theorem new_game_discards (g1 g2 : Game) :
  Game_running g1 = Game_running g2 ->
  Game_level g1 = Game_level g2 ->
  Game_played g1 = Game_played g2 ->
  Game_new_game g1 = Game_new_game g2.
Proof.
  destruct g1 as [r1 s1 sc1 l1 p1 e1 c1 pl1 pd1].
  destruct g2 as [r2 s2 sc2 l2 p2 e2 c2 pl2 pd2].
  cbn [Game_running Game_level Game_played]. intros -> -> ->. reflexivity.
Qed.

Lemma new_game_discards_witness :
  Game_new_game (Game_player_die (Game_new_game Game_init))
  = Game_new_game (play death_sound Game_init).
Proof.
  apply new_game_discards; reflexivity.
Defined.

(** ** Playing the level *)

(** The keys held during a tick. *)
Definition hold (go_left go_right : bool) : Pressed :=
  fun k => match k with K_LEFT => go_left | K_RIGHT => go_right | _ => false end.

(** A script is a list of segments (ticks, jump, left, right): for that many
    ticks the two keys are held as told, a SPACE key being pressed in each of
    them when [jump] is set. *)
Definition Segment : Type := nat * bool * bool * bool.

Definition segment_inputs (s : Segment) : list (list Event * Pressed) :=
  match s with
  | (n, jump, go_left, go_right) =>
      repeat ((if jump then [KEYDOWN K_SPACE] else []), hold go_left go_right) n
  end.

Definition script_inputs (script : list Segment) : list (list Event * Pressed) :=
  flat_map segment_inputs script.

(** The RETURN key that starts the game comes first in the first tick. *)
Definition press_start (inputs : list (list Event * Pressed))
  : list (list Event * Pressed) :=
  match inputs with
  | [] => []
  | (evs, keys) :: rest => (KEYDOWN K_RETURN :: evs, keys) :: rest
  end.

(** A way through level 1 that collects the five coins. *)
Definition winning_script : list Segment :=
  [ (24%nat, false, false, true); (1%nat, true, false, true);
    (32%nat, false, false, true); (3%nat, false, false, false);
    (9%nat, false, false, true); (1%nat, true, false, true);
    (5%nat, false, false, true); (9%nat, false, false, false);
    (6%nat, false, true, false); (3%nat, false, false, false);
    (15%nat, false, false, true); (1%nat, true, false, true);
    (23%nat, false, false, true); (6%nat, false, false, false);
    (18%nat, false, true, false); (1%nat, true, true, false);
    (41%nat, false, true, false); (2%nat, false, false, false);
    (15%nat, false, false, true); (1%nat, true, false, true);
    (44%nat, false, false, true); (1%nat, true, false, true);
    (41%nat, false, false, true); (3%nat, false, false, false) ].

(** Three jumps into the first enemy. *)
Definition losing_script : list Segment :=
  [ (6%nat, false, false, true); (1%nat, true, false, true);
    (38%nat, false, false, true); (1%nat, true, false, true);
    (23%nat, false, false, true); (3%nat, false, false, false);
    (3%nat, false, false, true); (1%nat, true, false, true);
    (38%nat, false, false, true); (1%nat, true, false, true);
    (2%nat, false, false, true); (3%nat, false, false, false);
    (12%nat, false, false, true); (6%nat, false, true, false);
    (3%nat, false, false, false); (3%nat, false, false, true);
    (1%nat, true, false, true); (38%nat, false, false, true);
    (1%nat, true, false, true); (2%nat, false, false, true);
    (1%nat, false, false, false) ].

Lemma reachable_run (inputs : list (list Event * Pressed)) (g : Game) :
  reachable g -> reachable (Game_run inputs g).
Proof.
  revert g. induction inputs as [|[evs keys] rest IH]; intros g Hr; cbn [Game_run].
  - exact Hr.
  - destruct (Game_running g) eqn:E; [|exact Hr].
    apply IH. apply reachable_step; assumption.
Qed.

(** X14. Both ends of the game can be reached from the first state of the
    program. One input sequence of 305 ticks starts a game and wins it: it
    ends in WIN with no coin left, score 50 and the 3 lives. Another of 187
    ticks loses it: it ends in GAME_OVER with no life left, score 0 and the 5
    coins still there. *)
Theorem win_and_game_over_reachable :
  (let g := Game_run (press_start (script_inputs winning_script)) Game_init in
   reachable g
   /\ length (script_inputs winning_script) = 305%nat
   /\ Game_game_state g = WIN
   /\ Game_coins g = []
   /\ Game_score g = 50
   /\ Player_lives (Game_player g) = 3)
  /\ (let g := Game_run (press_start (script_inputs losing_script)) Game_init in
      reachable g
      /\ length (script_inputs losing_script) = 187%nat
      /\ Game_game_state g = GAME_OVER
      /\ length (Game_coins g) = 5%nat
      /\ Game_score g = 0
      /\ Player_lives (Game_player g) = 0).
Proof.
  split; (split; [apply reachable_run; apply reachable_init|]);
    vm_compute; repeat split.
Qed.

(** ** The last coin and the last life *)

(** A way through level 1 that takes four coins and loses two lives: the
    coins at (130,370), (530,170), (280,90) and (680,320), a fall through the
    ground after the fourth, and a jump into the first enemy. It ends with
    the player sliding to the right on the platform at (300,300), next to the
    coin at (330,270), while the first enemy walks to the left towards it. *)
Definition approach_script : list Segment :=
  [ (27%nat, false, false, true); (1%nat, true, false, true);
    (20%nat, false, false, true); (6%nat, false, false, false);
    (6%nat, false, true, false); (6%nat, false, false, true);
    (1%nat, true, false, true); (23%nat, false, false, true);
    (3%nat, false, false, false); (9%nat, false, false, true);
    (1%nat, true, false, true); (23%nat, false, false, true);
    (2%nat, false, false, false); (18%nat, false, true, false);
    (1%nat, true, true, false); (41%nat, false, true, false);
    (3%nat, false, false, false); (18%nat, false, false, true);
    (1%nat, true, false, true); (80%nat, false, false, true);
    (3%nat, false, false, false); (3%nat, false, true, false);
    (25%nat, false, false, false); (6%nat, false, false, true);
    (1%nat, true, false, true); (38%nat, false, false, true);
    (1%nat, true, false, true); (23%nat, false, false, true);
    (3%nat, false, false, false); (24%nat, false, false, true);
    (1%nat, true, false, true); (23%nat, false, false, true);
    (3%nat, false, false, false); (9%nat, false, false, true);
    (1%nat, false, false, false) ].

(** C3. In a reachable state a game is in WIN only with an empty coin group,
    and a tick that takes a played game to WIN has collected at least one
    coin and left none. The converse holds unless the same tick takes the
    last life: a tick of a played game that collects the last coin ends in
    WIN, or an enemy was met in it with one life left and it ends in
    GAME_OVER. That case is reached: after the 454 ticks of
    [approach_script] the game is played with one coin, one life and score
    40; in the next tick, no key held, the player's rectangle (302,262,30,40)
    overlaps both the last coin and the enemy at x = 331; the coin phase
    empties the group, scores 50 and sets WIN, the enemy phase then runs the
    death procedure, and the tick ends in GAME_OVER with no life and no coin
    left. The level has 5 coins when built, and [winning_script] collects
    them all and ends in WIN. *)
Theorem win_lost_with_last_life :
  (forall g, reachable g -> Game_game_state g = WIN -> Game_coins g = [])
  /\ (forall keys g,
        reachable g -> Game_game_state g = PLAYING ->
        let g2 := Game_update_landing (Game_update_sprites keys g) in
        let g' := Game_update keys g in
        (Game_game_state g' = WIN -> coin_hits g2 <> [] /\ Game_coins g' = [])
        /\ (coin_hits g2 <> [] -> Game_coins g' = [] ->
            Game_game_state g' = WIN
            \/ (Game_game_state g' = GAME_OVER
                /\ enemy_caught keys g = true
                /\ Player_lives (Game_player g) = 1)))
  /\ (let g := Game_run (press_start (script_inputs approach_script)) Game_init in
      let g2 := Game_update_landing (Game_update_sprites no_keys g) in
      let g' := Game_run_iteration [] no_keys g in
      reachable g
      /\ length (script_inputs approach_script) = 454%nat
      /\ Game_running g = true
      /\ Game_game_state g = PLAYING
      /\ Game_coins g = [Coin_init 330 270]
      /\ Player_lives (Game_player g) = 1
      /\ Game_score g = 40
      /\ Player_rect (Game_player g2) = Rect.mk 302 262 30 40
      /\ coin_hits g2 = [Coin_init 330 270]
      /\ Game_game_state (Game_update_coins g2) = WIN
      /\ map Enemy_rect (enemy_hits (Game_update_coins g2)) = [Rect.mk 331 280 30 30]
      /\ g' = Game_update no_keys g
      /\ Game_coins g' = []
      /\ Game_score g' = 50
      /\ Player_lives (Game_player g') = 0
      /\ Game_game_state g' = GAME_OVER)
  /\ (let g0 := Game_run_iteration [KEYDOWN K_RETURN] no_keys Game_init in
      let g := Game_run (press_start (script_inputs winning_script)) Game_init in
      Game_game_state g0 = PLAYING
      /\ length (Game_coins g0) = 5%nat
      /\ Game_game_state g = WIN
      /\ Game_coins g = []).
Proof.
  split; [|split; [|split]].
  - intros g Hr. apply (reachable_inv g Hr).
  - intros keys g Hr Hs.
    destruct (reachable_inv g Hr) as (_ & Hp & _ & _ & Hh & He & Hc & _).
    specialize (Hp Hs).
    destruct (Game_update_summary keys g Hh He Hc) as (Hb & _ & S & C & _).
    cbv zeta in Hb, S. cbv zeta. rewrite S, C, Hs.
    generalize dependent (Game_update_landing (Game_update_sprites keys g)).
    intros g2 Hb.
    destruct (fell keys g) eqn:F.
    + destruct (Hb eq_refl) as (_ & Hn & _). rewrite Hn. cbn [is_empty negb andb orb].
      split; [|intros H; contradiction H; reflexivity].
      destruct (Player_lives (Game_player g) - 1 <=? 0); discriminate.
    + cbn [orb]. clear Hb. split.
      * destruct (enemy_caught keys g && (Player_lives (Game_player g) - 1 <=? 0));
          [discriminate|].
        destruct (coin_hits g2) as [|c hits]; cbn [is_empty negb andb];
          [discriminate|].
        destruct (coins_left g2); cbn [is_empty]; [|discriminate].
        intros _. split; [discriminate | reflexivity].
      * intros Hhit Hleft. rewrite Hleft.
        destruct (coin_hits g2) as [|c hits]; [contradiction Hhit; reflexivity|].
        cbn [is_empty negb andb].
        destruct (enemy_caught keys g); cbn [andb]; [|left; reflexivity].
        destruct (Z.leb_spec (Player_lives (Game_player g) - 1) 0);
          [right; repeat split; lia | left; reflexivity].
  - cbv zeta. split; [apply reachable_run; apply reachable_init|].
    vm_compute. repeat split.
  - vm_compute. repeat split.
Qed.

(** ** The sounds of a tick *)

Lemma Player_update_played (keys : Pressed) (g : Game) :
  Game_played (Player_update keys g)
  = (if fell keys g then [death_sound] else []) ++ Game_played g.
Proof.
  rewrite Player_update_eq. unfold fell.
  destruct (Rect.top (Player_rect (Player_moved keys (Game_player g))) >? SCREEN_HEIGHT).
  - destruct (Game_player_die_fields
                (Game_set_player g (Player_moved keys (Game_player g))))
      as (_ & _ & _ & _ & _ & _ & _ & _ & _ & _ & _ & _ & _ & Pd).
    rewrite Pd. reflexivity.
  - reflexivity.
Qed.

Lemma Game_update_sprites_played (keys : Pressed) (g : Game) :
  Game_played (Game_update_sprites keys g) = Game_played (Player_update keys g).
Proof.
  unfold Game_update_sprites. cbv zeta.
  generalize (Player_update keys g). intros g1. destruct g1; reflexivity.
Qed.

Lemma Game_update_enemies_played (g : Game) :
  Game_played (Game_update_enemies g)
  = (if negb (is_empty (enemy_hits g)) then [death_sound] else []) ++ Game_played g.
Proof.
  unfold Game_update_enemies.
  destruct (negb (is_empty (enemy_hits g))); [|reflexivity].
  destruct (Game_player_die_fields g)
    as (_ & _ & _ & _ & _ & _ & _ & _ & _ & _ & _ & _ & _ & Pd).
  rewrite Pd. reflexivity.
Qed.

(** X15. The sounds of a tick, whatever the state it starts from: the log
    of played sounds only grows, by a death sound if the player fell below
    the screen, then one coin sound for each coin removed in the tick, then
    a death sound if an enemy was met; the coin sounds are as many as the
    tens added to the score. A jump request adds the jump sound exactly
    when it is honoured. *)
Theorem sounds_of_a_tick (keys : Pressed) (g : Game) :
  let g2 := Game_update_landing (Game_update_sprites keys g) in
  let n := length (coin_hits g2) in
  Game_played (Game_update keys g)
  = (if enemy_caught keys g then [death_sound] else [])
    ++ repeat coin_sound n
    ++ (if fell keys g then [death_sound] else [])
    ++ Game_played g
  /\ Game_score (Game_update keys g) = Game_score g + 10 * Z.of_nat n
  /\ Game_played (Player_jump g)
     = (if negb (is_empty (ground_probe g)) && negb (Player_jumping (Game_player g))
        then [jump_sound] else [])
       ++ Game_played g.
Proof.
  cbv zeta. split; [|split].
  - unfold enemy_caught. rewrite Game_update_eq.
    pose proof (Player_update_played keys g) as P0.
    rewrite <- Game_update_sprites_played in P0.
    revert P0. generalize (Game_update_sprites keys g). intros g1 P0.
    destruct (Game_update_landing_fields g1) as (_ & _ & _ & _ & _ & _ & _ & _ & _ & P1).
    revert P1. generalize (Game_update_landing g1). intros g2 P1.
    destruct (Game_update_coins_fields g2) as (_ & _ & _ & _ & _ & _ & _ & _ & P2).
    revert P2. generalize (Game_update_coins g2). intros g3 P2.
    rewrite Game_update_enemies_played, P2, P1, P0. reflexivity.
  - apply (Game_update_score keys g).
  - rewrite Player_jump_unfold.
    destruct (negb (is_empty (ground_probe g)) && negb (Player_jumping (Game_player g)));
      reflexivity.
Qed.
